(** * Shared helpers and handlers of the generate-text / generate-audio functions

    A shallow embedding of [netlify/functions/utils.js] and of the two
    handlers that use it, together with the part of the JavaScript run time
    they rely on (strings of UTF-16 code units, truthiness, property
    access, [JSON.stringify], [JSON.parse]), and the properties stated for
    them. *)

From Stdlib Require Import ZArith NArith List Ascii String Lia Bool.
From Stdlib Require Import DecimalString DecimalZ ZifyBool.
From stdpp Require Import base option list gmap.

Local Open Scope list_scope.

(** ** JavaScript strings

    A JavaScript string is a sequence of 16-bit code units and [s.length]
    counts code units, so a string is a list of code units here. *)

Abbreviation jsstring := (list N).

(** String literals of this file are written as UTF-8 text and turned into
    code units by [js]. *)

Fixpoint utf8_decode (bs : list N) : list N :=
  match bs with
  | [] => []
  | b0 :: t0 =>
    if (b0 <? 0x80)%N then b0 :: utf8_decode t0
    else if (b0 <? 0xE0)%N then
      match t0 with
      | b1 :: t1 => ((b0 - 0xC0) * 0x40 + (b1 - 0x80))%N :: utf8_decode t1
      | _ => []
      end
    else if (b0 <? 0xF0)%N then
      match t0 with
      | b1 :: b2 :: t2 =>
        ((b0 - 0xE0) * 0x1000 + (b1 - 0x80) * 0x40 + (b2 - 0x80))%N
          :: utf8_decode t2
      | _ => []
      end
    else
      match t0 with
      | b1 :: b2 :: b3 :: t3 =>
        ((b0 - 0xF0) * 0x40000 + (b1 - 0x80) * 0x1000
         + (b2 - 0x80) * 0x40 + (b3 - 0x80))%N :: utf8_decode t3
      | _ => []
      end
  end.

Definition utf16_encode (cp : N) : jsstring :=
  if (cp <? 0x10000)%N then [cp]
  else [(0xD800 + (cp - 0x10000) / 0x400)%N;
        (0xDC00 + (cp - 0x10000) mod 0x400)%N].

Definition js (s : string) : jsstring :=
  flat_map utf16_encode (utf8_decode (map N_of_ascii (list_ascii_of_string s))).

(** A literal written with apostrophes where the text has double quotes,
    for the JSON texts of examples. *)
Definition js_quoted (s : string) : jsstring :=
  map (fun c => if (c =? 39)%N then 34%N else c) (js s).

(** [String.prototype.startsWith] and [String.prototype.includes]; the
    latter is what the tests' [toContain] checks on a message. *)

Fixpoint startsWith (s prefix : jsstring) {struct prefix} : bool :=
  match prefix, s with
  | [], _ => true
  | p :: prefix', c :: s' => (p =? c)%N && startsWith s' prefix'
  | _ :: _, [] => false
  end.

Fixpoint includes (s needle : jsstring) : bool :=
  startsWith s needle ||
  match s with
  | [] => false
  | _ :: s' => includes s' needle
  end.

(** [String.prototype.substring(0, n)]. *)

Definition substring0 (n : nat) (s : jsstring) : jsstring := take n s.

(** [Array.prototype.join]. *)

Fixpoint join (sep : jsstring) (parts : list jsstring) : jsstring :=
  match parts with
  | [] => []
  | [p] => p
  | p :: rest => p ++ sep ++ join sep rest
  end.

(** The text a template literal gives an integral Number: for a magnitude
    below 10^21 [Number::toString] is the decimal numeral, with a minus sign
    when negative.  Lengths, HTTP statuses and the bounds and timeouts the
    handlers pass are such numbers. *)

Definition Z_toString (z : Z) : jsstring :=
  map N_of_ascii (list_ascii_of_string (NilZero.string_of_int (Z.to_int z))).

(** ** JSON text: white space, string literals, number literals

    The lexical grammar of ECMA-404, on code units.  Code units are written
    as numbers: 34 is the double quote, 92 the backslash, 44 the comma, 58 the
    colon, 91 and 93 the brackets, 123 and 125 the braces. *)

Definition is_ws (c : N) : bool :=
  (c =? 32)%N || (c =? 9)%N || (c =? 10)%N || (c =? 13)%N.

Fixpoint skip_ws (s : jsstring) : jsstring :=
  match s with
  | [] => []
  | c :: t => if is_ws c then skip_ws t else s
  end.

Definition is_digit (c : N) : bool := (48 <=? c)%N && (c <=? 57)%N.

(** Hexadecimal digits: written in lower case, read in either case. *)

Definition hex_digit (n : N) : N := if (n <? 10)%N then (48 + n)%N else (87 + n)%N.

Definition hex_value (c : N) : option N :=
  if is_digit c then Some (c - 48)%N
  else if (97 <=? c)%N && (c <=? 102)%N then Some (c - 87)%N
  else if (65 <=? c)%N && (c <=? 70)%N then Some (c - 55)%N
  else None.

Definition UnicodeEscape (c : N) : jsstring :=
  [92%N; 117%N; hex_digit (c / 4096 mod 16); hex_digit (c / 256 mod 16);
   hex_digit (c / 16 mod 16); hex_digit (c mod 16)].

Definition is_leading_surrogate (c : N) : bool := (0xD800 <=? c)%N && (c <=? 0xDBFF)%N.
Definition is_trailing_surrogate (c : N) : bool := (0xDC00 <=? c)%N && (c <=? 0xDFFF)%N.

(** One code unit of [QuoteJSONString] that is not half of a surrogate
    pair. *)
Definition quote_unit (c : N) : jsstring :=
  if (c =? 8)%N then [92%N; 98%N]
  else if (c =? 9)%N then [92%N; 116%N]
  else if (c =? 10)%N then [92%N; 110%N]
  else if (c =? 12)%N then [92%N; 102%N]
  else if (c =? 13)%N then [92%N; 114%N]
  else if (c =? 34)%N then [92%N; 34%N]
  else if (c =? 92)%N then [92%N; 92%N]
  else if (c <? 32)%N || is_leading_surrogate c || is_trailing_surrogate c
       then UnicodeEscape c
  else [c].

(** The characters of [QuoteJSONString]: a well-formed surrogate pair is
    copied, a lone surrogate is escaped. *)
Fixpoint quote_units (s : jsstring) : jsstring :=
  match s with
  | [] => []
  | c :: t =>
    match t with
    | d :: t' =>
      if is_leading_surrogate c && is_trailing_surrogate d
      then c :: d :: quote_units t'
      else quote_unit c ++ quote_units t
    | [] => quote_unit c
    end
  end.

Definition QuoteJSONString (s : jsstring) : jsstring :=
  34%N :: quote_units s ++ [34%N].

(** The character a single-character escape stands for. *)
Definition unescape (e : N) : option N :=
  if (e =? 34)%N then Some 34%N
  else if (e =? 92)%N then Some 92%N
  else if (e =? 47)%N then Some 47%N
  else if (e =? 98)%N then Some 8%N
  else if (e =? 102)%N then Some 12%N
  else if (e =? 110)%N then Some 10%N
  else if (e =? 114)%N then Some 13%N
  else if (e =? 116)%N then Some 9%N
  else None.

Definition hex4 (h1 h2 h3 h4 : N) : option N :=
  match hex_value h1, hex_value h2, hex_value h3, hex_value h4 with
  | Some a, Some b, Some c, Some d => Some (4096 * a + 256 * b + 16 * c + d)%N
  | _, _, _, _ => None
  end.

Definition prepend (c : N) (r : option (jsstring * jsstring)) : option (jsstring * jsstring) :=
  match r with
  | Some (str, rest) => Some (c :: str, rest)
  | None => None
  end.

(** Reads the characters of a string literal after its opening quote, up to
    and including the closing quote: the string and the remaining text. *)
Fixpoint parse_chars (s : jsstring) : option (jsstring * jsstring) :=
  match s with
  | [] => None
  | c :: t =>
    if (c =? 34)%N then Some ([], t)
    else if (c =? 92)%N then
      match t with
      | [] => None
      | e :: t' =>
        if (e =? 117)%N then
          match t' with
          | h1 :: h2 :: h3 :: h4 :: t'' =>
            match hex4 h1 h2 h3 h4 with
            | Some u => prepend u (parse_chars t'')
            | None => None
            end
          | _ => None
          end
        else
          match unescape e with
          | Some u => prepend u (parse_chars t')
          | None => None
          end
      end
    else if (c <? 32)%N then None
    else prepend c (parse_chars t)
  end.

(** The longest run of digits at the head of a text, and what follows. *)
Fixpoint span_digits (s : jsstring) : jsstring * jsstring :=
  match s with
  | [] => ([], [])
  | c :: t =>
    if is_digit c then let '(ds, r) := span_digits t in (c :: ds, r)
    else ([], s)
  end.

(** Integer part: a single 0, or a non-zero digit followed by digits. *)
Definition lex_int (s : jsstring) : option (jsstring * jsstring) :=
  match s with
  | [] => None
  | c :: t =>
    if (c =? 48)%N then Some ([c], t)
    else if is_digit c then let '(ds, r) := span_digits t in Some (c :: ds, r)
    else None
  end.

(** Optional fraction: a point followed by at least one digit. *)
Definition lex_frac (s : jsstring) : option (jsstring * jsstring) :=
  match s with
  | c :: t =>
    if (c =? 46)%N then
      match span_digits t with
      | ([], _) => None
      | (ds, r) => Some (c :: ds, r)
      end
    else Some ([], s)
  | [] => Some ([], s)
  end.

(** Optional exponent: e or E, an optional sign, at least one digit. *)
Definition lex_exp (s : jsstring) : option (jsstring * jsstring) :=
  match s with
  | c :: t =>
    if (c =? 101)%N || (c =? 69)%N then
      match t with
      | sg :: t' =>
        if (sg =? 43)%N || (sg =? 45)%N then
          match span_digits t' with
          | ([], _) => None
          | (ds, r) => Some (c :: sg :: ds, r)
          end
        else
          match span_digits t with
          | ([], _) => None
          | (ds, r) => Some (c :: ds, r)
          end
      | [] => None
      end
    else Some ([], s)
  | [] => Some ([], s)
  end.

Definition lex_unsigned (s : jsstring) : option (jsstring * jsstring) :=
  match lex_int s with
  | Some (i, r1) =>
    match lex_frac r1 with
    | Some (f, r2) =>
      match lex_exp r2 with
      | Some (e, r3) => Some (i ++ f ++ e, r3)
      | None => None
      end
    | None => None
    end
  | None => None
  end.

(** A number literal at the head of a text: the literal and what follows. *)
Definition lex_number (s : jsstring) : option (jsstring * jsstring) :=
  match s with
  | c :: t =>
    if (c =? 45)%N then
      match lex_unsigned t with
      | Some (tok, r) => Some (c :: tok, r)
      | None => None
      end
    else lex_unsigned s
  | [] => None
  end.

(** A text is a JSON number literal when the lexer takes all of it. *)
Definition is_number_literal (s : jsstring) : bool :=
  bool_decide (lex_number s = Some (s, [])).

(** Where a number literal can stop: at the end of the text, or before a
    character that cannot continue it. *)
Definition ends_number (rest : jsstring) : bool :=
  match rest with
  | [] => true
  | c :: _ => negb (is_digit c || (c =? 46)%N || (c =? 101)%N || (c =? 69)%N)
  end.

(** ** Property keys and property order

    An array index is the canonical numeral of an integer below 2^32 - 1.
    The own properties of an ordinary object are kept with the array
    indices first, in ascending order, then the other keys in the order
    they were created. *)

Definition digits_value (ds : jsstring) : N :=
  fold_left (fun acc c => (10 * acc + (c - 48))%N) ds 0%N.

Definition array_index (k : jsstring) : option N :=
  match k with
  | [] => None
  | c :: t =>
    if forallb is_digit k
       && (negb (c =? 48)%N || bool_decide (t = []))
       && Nat.leb (length k) 10
       && (digits_value k <? 4294967295)%N
    then Some (digits_value k)
    else None
  end.

(** [goes_before k k']: a new key [k] is placed ahead of an existing key
    [k']. *)
Definition goes_before (k k' : jsstring) : bool :=
  match array_index k, array_index k' with
  | Some i, Some j => (i <? j)%N
  | Some _, None => true
  | None, _ => false
  end.

Fixpoint lookup_property {A : Type} (k : jsstring) (ps : list (jsstring * A)) : option A :=
  match ps with
  | [] => None
  | (k', v) :: ps' => if bool_decide (k = k') then Some v else lookup_property k ps'
  end.

Fixpoint replace_property {A : Type} (k : jsstring) (v : A) (ps : list (jsstring * A))
  : list (jsstring * A) :=
  match ps with
  | [] => []
  | (k', v') :: ps' =>
    if bool_decide (k = k') then (k', v) :: ps' else (k', v') :: replace_property k v ps'
  end.

Fixpoint insert_property {A : Type} (k : jsstring) (v : A) (ps : list (jsstring * A))
  : list (jsstring * A) :=
  match ps with
  | [] => [(k, v)]
  | (k', v') :: ps' =>
    if goes_before k k' then (k, v) :: ps else (k', v') :: insert_property k v ps'
  end.

(** [CreateDataProperty]: an existing property keeps its place and takes the
    new value, a new one takes its place in property order. *)
Definition CreateDataProperty {A : Type} (ps : list (jsstring * A)) (k : jsstring) (v : A)
  : list (jsstring * A) :=
  match lookup_property k ps with
  | Some _ => replace_property k v ps
  | None => insert_property k v ps
  end.

(** Keys that are pairwise distinct and already in property order. *)
Fixpoint in_property_order (ks : list jsstring) : bool :=
  match ks with
  | [] => true
  | k :: ks' =>
    forallb (fun k' => negb (bool_decide (k' = k)) && negb (goes_before k' k)) ks'
    && in_property_order ks'
  end.

(** ** The JavaScript run time

    What ECMAScript leaves to the implementation, or what would need IEEE
    arithmetic, is a parameter: the Number type with its text conversions,
    the wording of the engine's error messages, and URL serialisation. *)

Class Runtime : Type := {
  Num : Type;
  Num_eq_dec :: EqDecision Num;
  (** the Number value of an integer *)
  Number_of_Z : Z -> Num;
  (** [Number::toString(x, 10)] *)
  Number_toString : Num -> jsstring;
  (** the Number value of a JSON number literal *)
  StringToNumber : jsstring -> Num;
  (** neither NaN nor an infinity *)
  Number_isFinite : Num -> bool;
  (** [ToBoolean]: false for +0, -0 and NaN *)
  Number_toBoolean : Num -> bool;
  (** message of the SyntaxError [JSON.parse] throws on a text *)
  SyntaxError_message : jsstring -> jsstring;
  (** message of the TypeError thrown when the pattern [{ p, ... } = v]
      meets [v] null or undefined; arguments: [p] and the text of [v] *)
  TypeError_destructure : jsstring -> jsstring -> jsstring;
  (** message of the TypeError thrown when [v.substring] is called on a
      value that has no such method *)
  TypeError_not_a_function : jsstring -> jsstring;
  (** [href] of [new URL(base)] after [searchParams.append(name, value)] *)
  URL_append : jsstring -> jsstring -> jsstring -> jsstring
}.

(** ** Errors and completions *)

Record JsError : Type := { name : jsstring; message : jsstring }.

(** Outcome of evaluating an expression that may throw. *)
Inductive Completion (A : Type) : Type :=
| Normal (a : A)
| Abrupt (e : JsError).

Arguments Normal {A} a.
Arguments Abrupt {A} e.

(** Outcome of a parser: a result and the text that follows it, a syntax
    error, or fuel run out. *)
Inductive Parse (A : Type) : Type :=
| Parsed (a : A) (rest : jsstring)
| Malformed
| Exhausted.

Arguments Parsed {A} a rest.
Arguments Malformed {A}.
Arguments Exhausted {A}.

(** ** JavaScript values

    The values that [process.env], a request body, [JSON.parse] and the
    object literals of the source can produce.  An object is the list of its
    own properties in property order. *)

Section Values.
Context `{rt : Runtime}.

Unset Elimination Schemes.
Inductive JsValue : Type :=
| JUndefined
| JNull
| JBool (b : bool)
| JNumber (n : Num)
| JString (s : jsstring)
| JArray (elements : list JsValue)
| JObject (properties : list (jsstring * JsValue)).
Set Elimination Schemes.

(** [ToBoolean]. *)
Definition ToBoolean (v : JsValue) : bool :=
  match v with
  | JUndefined | JNull => false
  | JBool b => b
  | JNumber n => Number_toBoolean n
  | JString s => match s with [] => false | _ => true end
  | JArray _ | JObject _ => true
  end.

(** [ToString]; an array joins its elements with commas, null and undefined
    elements giving the empty string. *)
Fixpoint ToString (v : JsValue) : jsstring :=
  match v with
  | JUndefined => js "undefined"
  | JNull => js "null"
  | JBool true => js "true"
  | JBool false => js "false"
  | JNumber n => Number_toString n
  | JString s => s
  | JArray xs =>
    join (js ",")
      ((fix each (l : list JsValue) : list jsstring :=
          match l with
          | [] => []
          | x :: l' =>
            match x with
            | JUndefined | JNull => []
            | _ => ToString x
            end :: each l'
          end) xs)
  | JObject _ => js "[object Object]"
  end.

(** [typeof v === 'string']. *)
Definition is_string (v : JsValue) : bool :=
  match v with
  | JString _ => true
  | _ => false
  end.

(** [v.length] of a string (it is read only where [typeof v] is
    ['string']). *)
Definition string_length (v : JsValue) : Z :=
  match v with
  | JString s => Z.of_nat (length s)
  | _ => 0%Z
  end.

(** Property read [v.k] / [v[k]] on a value that is neither null nor
    undefined, for a key that names no member of a built-in prototype (the
    keys of the source: text, prompt, systemInstruction, candidates, content,
    parts, inlineData, data, 0).  A primitive has no such property; a string
    has its code units at the array indices. *)
Definition GetV (v : JsValue) (k : jsstring) : JsValue :=
  match v with
  | JObject ps => default JUndefined (lookup_property k ps)
  | JArray xs =>
    match array_index k with
    | Some i => default JUndefined (xs !! N.to_nat i)
    | None => JUndefined
    end
  | JString s =>
    match array_index k with
    | Some i =>
      match s !! N.to_nat i with
      | Some c => JString [c]
      | None => JUndefined
      end
    | None => JUndefined
    end
  | _ => JUndefined
  end.

(** Optional chaining [v?.k]. *)
Definition OptionalGet (v : JsValue) (k : jsstring) : JsValue :=
  match v with
  | JUndefined | JNull => JUndefined
  | _ => GetV v k
  end.

(** *** Places in JSON data

    The specification names a place in JSON data by a path of object keys and
    array indices, as in candidates[0].content.parts[0].inlineData.data.
    [json_member] is one step of such a path: the member of an object under a
    key, the element of an array at an index, and nothing in any other value.
    [value_at] is the value a path leads to, if every step of it exists.
    Neither is taken from the handlers: they say what the specification
    means, for comparison with what the code reads. *)
Definition json_member (v : JsValue) (k : jsstring) : option JsValue :=
  match v with
  | JObject ps => lookup_property k ps
  | JArray xs =>
    match array_index k with
    | Some i => xs !! N.to_nat i
    | None => None
    end
  | _ => None
  end.

Fixpoint value_at (path : list jsstring) (v : JsValue) : option JsValue :=
  match path with
  | [] => Some v
  | k :: path' =>
    match json_member v k with
    | Some v' => value_at path' v'
    | None => None
    end
  end.

(** *** JSON.stringify

    [SerializeJSONProperty] without replacer, indentation or [toJSON]:
    undefined has no serialisation, a Number that is not finite is written
    null, an array writes null for an element without serialisation and an
    object leaves such a property out. *)
Fixpoint SerializeJSONProperty (v : JsValue) : option jsstring :=
  match v with
  | JUndefined => None
  | JNull => Some (js "null")
  | JBool true => Some (js "true")
  | JBool false => Some (js "false")
  | JNumber n => Some (if Number_isFinite n then Number_toString n else js "null")
  | JString s => Some (QuoteJSONString s)
  | JArray xs =>
    Some (91%N :: join [44%N]
            ((fix each (l : list JsValue) : list jsstring :=
                match l with
                | [] => []
                | x :: l' => default (js "null") (SerializeJSONProperty x) :: each l'
                end) xs) ++ [93%N])
  | JObject ps =>
    Some (123%N :: join [44%N]
            ((fix each (l : list (jsstring * JsValue)) : list jsstring :=
                match l with
                | [] => []
                | (k, x) :: l' =>
                  match SerializeJSONProperty x with
                  | Some t => (QuoteJSONString k ++ 58%N :: t) :: each l'
                  | None => each l'
                  end
                end) ps) ++ [125%N])
  end.

(** The texts an array and an object join with commas. *)
Definition elements_text (xs : list JsValue) : list jsstring :=
  map (fun x => default (js "null") (SerializeJSONProperty x)) xs.

Fixpoint members_text (ps : list (jsstring * JsValue)) : list jsstring :=
  match ps with
  | [] => []
  | (k, x) :: ps' =>
    match SerializeJSONProperty x with
    | Some t => (QuoteJSONString k ++ 58%N :: t) :: members_text ps'
    | None => members_text ps'
    end
  end.

(** [JSON.stringify(v)]: a string, or undefined ([None]). *)
Definition JSON_stringify (v : JsValue) : option jsstring := SerializeJSONProperty v.

(** *** JSON.parse *)

(** A keyword: the text must continue with [word]. *)
Definition expect (word : jsstring) (s : jsstring) (v : JsValue) : Parse JsValue :=
  if startsWith s word then Parsed v (drop (length word) s) else Malformed.

(** The object a list of parsed members denotes: each member is defined in
    turn, so a repeated key keeps its last value. *)
Definition object_of_members (ms : list (jsstring * JsValue)) : list (jsstring * JsValue) :=
  fold_left (fun ps m => CreateDataProperty ps m.1 m.2) ms [].

(** Recursive descent; the fuel bounds the number of nested calls, and
    [JSON_parse_text] supplies more than any text can use. *)
Fixpoint parse_value (fuel : nat) (s : jsstring) : Parse JsValue :=
  match fuel with
  | O => Exhausted
  | S fuel' =>
    match s with
    | [] => Malformed
    | c :: t =>
      if (c =? 110)%N then expect (js "ull") t JNull
      else if (c =? 116)%N then expect (js "rue") t (JBool true)
      else if (c =? 102)%N then expect (js "alse") t (JBool false)
      else if (c =? 34)%N then
        match parse_chars t with
        | Some (str, rest) => Parsed (JString str) rest
        | None => Malformed
        end
      else if (c =? 91)%N then
        match skip_ws t with
        | [] => Malformed
        | c' :: t' =>
          if (c' =? 93)%N then Parsed (JArray []) t'
          else
            match parse_elements fuel' (c' :: t') with
            | Parsed xs rest => Parsed (JArray xs) rest
            | Malformed => Malformed
            | Exhausted => Exhausted
            end
        end
      else if (c =? 123)%N then
        match skip_ws t with
        | [] => Malformed
        | c' :: t' =>
          if (c' =? 125)%N then Parsed (JObject []) t'
          else
            match parse_members fuel' (c' :: t') with
            | Parsed ms rest => Parsed (JObject (object_of_members ms)) rest
            | Malformed => Malformed
            | Exhausted => Exhausted
            end
        end
      else
        match lex_number s with
        | Some (tok, rest) => Parsed (JNumber (StringToNumber tok)) rest
        | None => Malformed
        end
    end
  end

(** elements of an array, from the first character of an element to the
    closing bracket *)
with parse_elements (fuel : nat) (s : jsstring) : Parse (list JsValue) :=
  match fuel with
  | O => Exhausted
  | S fuel' =>
    match parse_value fuel' s with
    | Parsed v rest =>
      match skip_ws rest with
      | [] => Malformed
      | c :: t =>
        if (c =? 44)%N then
          match parse_elements fuel' (skip_ws t) with
          | Parsed vs rest' => Parsed (v :: vs) rest'
          | Malformed => Malformed
          | Exhausted => Exhausted
          end
        else if (c =? 93)%N then Parsed [v] t
        else Malformed
      end
    | Malformed => Malformed
    | Exhausted => Exhausted
    end
  end

(** members of an object, from the opening quote of a key to the closing
    brace *)
with parse_members (fuel : nat) (s : jsstring) : Parse (list (jsstring * JsValue)) :=
  match fuel with
  | O => Exhausted
  | S fuel' =>
    match s with
    | [] => Malformed
    | c :: t =>
      if (c =? 34)%N then
        match parse_chars t with
        | None => Malformed
        | Some (key, rest) =>
          match skip_ws rest with
          | [] => Malformed
          | c1 :: t1 =>
            if (c1 =? 58)%N then
              match parse_value fuel' (skip_ws t1) with
              | Parsed v rest2 =>
                match skip_ws rest2 with
                | [] => Malformed
                | c2 :: t2 =>
                  if (c2 =? 44)%N then
                    match parse_members fuel' (skip_ws t2) with
                    | Parsed ms rest' => Parsed ((key, v) :: ms) rest'
                    | Malformed => Malformed
                    | Exhausted => Exhausted
                    end
                  else if (c2 =? 125)%N then Parsed [(key, v)] t2
                  else Malformed
                end
              | Malformed => Malformed
              | Exhausted => Exhausted
              end
            else Malformed
          end
        end
      else Malformed
    end
  end.

Definition SyntaxError (text : jsstring) : JsError :=
  {| name := js "SyntaxError"; message := SyntaxError_message text |}.

(** [JSON.parse] of a string: one value between optional white space, or a
    SyntaxError. *)
Definition JSON_parse_text (text : jsstring) : Completion JsValue :=
  match parse_value (2 * length text + 1) (skip_ws text) with
  | Parsed v rest =>
    match skip_ws rest with
    | [] => Normal v
    | _ :: _ => Abrupt (SyntaxError text)
    end
  | Malformed | Exhausted => Abrupt (SyntaxError text)
  end.

(** [JSON.parse(v)] converts its argument to a string first. *)
Definition JSON_parse (v : JsValue) : Completion JsValue :=
  JSON_parse_text (ToString v).

(** *** Values that JSON represents exactly

    No undefined anywhere; each Number is finite, is written as a JSON
    number literal and reads back from it (in ECMAScript: every finite Number
    but -0); the properties of each object are distinct and in property
    order. *)
Definition number_serializable (n : Num) : bool :=
  Number_isFinite n
  && is_number_literal (Number_toString n)
  && bool_decide (StringToNumber (Number_toString n) = n).

Fixpoint json_serializable (v : JsValue) : bool :=
  match v with
  | JUndefined => false
  | JNull | JBool _ | JString _ => true
  | JNumber n => number_serializable n
  | JArray xs =>
    (fix all (l : list JsValue) : bool :=
       match l with
       | [] => true
       | x :: l' => json_serializable x && all l'
       end) xs
  | JObject ps =>
    in_property_order (map fst ps)
    && (fix all (l : list (jsstring * JsValue)) : bool :=
          match l with
          | [] => true
          | (_, x) :: l' => json_serializable x && all l'
          end) ps
  end.

End Values.


(** ** Effects: the outbound request and the console

    A function of the source that awaits or logs is a tree of events: a
    result, a thrown error, or an event with the continuation that receives
    its answer.  Nothing in the source loops, so the trees are finite. *)

Inductive Settled (A : Type) : Type :=
| Resolved (a : A)
| Rejected (e : JsError).

Arguments Resolved {A} a.
Arguments Rejected {A} e.

(** A Netlify response object; an error object has no [headers]. *)
Record Response : Type := {
  statusCode : Z;
  headers : option (list (jsstring * jsstring));
  body : option jsstring
}.

(** The [event] a handler receives; its body is a string or null. *)
Record HandlerEvent : Type := { event_body : option jsstring }.

(** The second argument of [fetch]. *)
Record RequestInit : Type := {
  method : jsstring;
  request_headers : list (jsstring * jsstring);
  request_body : option jsstring
}.

Section Effects.
Context `{rt : Runtime}.

(** What node-fetch hands back: the status, and what [text()] and [json()]
    settle to. *)
Record FetchResponse : Type := {
  res_status : Z;
  res_text : Settled jsstring;
  res_json : Settled JsValue
}.

(** [response.ok] of node-fetch: a status from 200 to 299. *)
Definition res_ok (response : FetchResponse) : bool :=
  (200 <=? res_status response)%Z && (res_status response <? 300)%Z.

(** The race between the request and the timer set beside it: the timer
    fires first, or the promise of [fetch] settles first (and the timer is
    cleared). *)
Inductive FetchOutcome : Type :=
| TimerFired
| FetchSettled (s : Settled FetchResponse).

(** The timer's callback aborts the controller, and node-fetch then rejects
    with its AbortError. *)
Definition AbortError : JsError :=
  {| name := js "AbortError"; message := js "The user aborted a request." |}.

Definition await_fetch (o : FetchOutcome) : Settled FetchResponse :=
  match o with
  | TimerFired => Rejected AbortError
  | FetchSettled s => s
  end.

Inductive IO : Type -> Type :=
(** [fetch(url, init)] with the abort signal armed for [timeout] ms *)
| fetch (url : jsstring) (init : RequestInit) (timeout : Z) : IO FetchOutcome
(** [console.error] of one log record (the sink adds stack and time) *)
| console_error (functionName : jsstring) (error_message : jsstring)
    (context : list (jsstring * JsValue)) : IO unit.

Inductive Prog (R : Type) : Type :=
| Ret (r : R)
| Raise (e : JsError)
| Vis (X : Type) (ev : IO X) (k : X -> Prog R).

Arguments Ret {R} r.
Arguments Raise {R} e.
Arguments Vis {R X} ev k.

Fixpoint bind {A B : Type} (p : Prog A) (f : A -> Prog B) : Prog B :=
  match p with
  | Ret a => f a
  | Raise e => Raise e
  | Vis ev k => Vis ev (fun x => bind (k x) f)
  end.

(** [try { p } catch (error) { h error }]. *)
Fixpoint try_catch {A : Type} (p : Prog A) (h : JsError -> Prog A) : Prog A :=
  match p with
  | Ret a => Ret a
  | Raise e => h e
  | Vis ev k => Vis ev (fun x => try_catch (k x) h)
  end.

Definition trigger {X : Type} (ev : IO X) : Prog X := Vis ev Ret.

(** The world answers each event. *)
Definition World : Type := forall X : Type, IO X -> X.

Fixpoint run {R : Type} (w : World) (p : Prog R) : Completion R :=
  match p with
  | Ret r => Normal r
  | Raise e => Abrupt e
  | Vis ev k => run w (k (w _ ev))
  end.

(** The requests a program sends in a world, in order. *)
Fixpoint requests {R : Type} (w : World) (p : Prog R) : list (jsstring * RequestInit * Z) :=
  match p with
  | Ret _ | Raise _ => []
  | Vis ev k =>
    match ev in IO X return (X -> Prog R) -> list (jsstring * RequestInit * Z) with
    | fetch url init timeout =>
      fun k' => (url, init, timeout) :: requests w (k' (w _ (fetch url init timeout)))
    | console_error f m c =>
      fun k' => requests w (k' (w _ (console_error f m c)))
    end k
  end.

End Effects.

Arguments Ret {_ R} r.
Arguments Raise {_ R} e.
Arguments Vis {_ R X} ev k.

Notation "'let!' x ':=' p 'in' q" := (bind p (fun x => q))
  (at level 10, x name, p at level 100, q at level 200).
Notation "'do!' p 'in' q" := (bind p (fun _ => q))
  (at level 10, p at level 100, q at level 200).

(** ** utils.js *)

Module Utils.
Section Utils.
Context `{rt : Runtime}.

(** The object literal [{ error: { message } }] of every failure path. *)
Definition error_object (message : jsstring) : JsValue :=
  JObject [(js "error", JObject [(js "message", JString message)])].

(** [{ statusCode, body: JSON.stringify({ error: { message } }) }]. *)
Definition error_response (statusCode : Z) (message : jsstring) : Response :=
  {| statusCode := statusCode;
     headers := None;
     body := JSON_stringify (error_object message) |}.

(** The message a client reads from a response, as the tests do:
    [JSON.parse(response.body).error.message]. *)
Definition error_message (response : Response) : option jsstring :=
  match body response with
  | Some text =>
    match JSON_parse_text text with
    | Normal parsed =>
      match OptionalGet (OptionalGet parsed (js "error")) (js "message") with
      | JString message => Some message
      | _ => None
      end
    | Abrupt _ => None
    end
  | None => None
  end.

(** [{ success, apiKey?, error? }] *)
Inductive ApiKeyResult : Type :=
| ApiKeyOk (apiKey : jsstring)
| ApiKeyFail (error : Response).

(** [process.env] maps names to strings; a variable that is not set reads
    as undefined. *)
Definition validateApiKey (env : gmap jsstring jsstring) : ApiKeyResult :=
  match env !! js "GEMINI_API_KEY" with
  | None | Some [] =>
    ApiKeyFail (error_response 500 (js "API 金鑰未設定。請檢查環境變數配置。"))
  | Some apiKey => ApiKeyOk apiKey
  end.

(** [{ success, data?, error? }] *)
Inductive BodyResult : Type :=
| BodyOk (data : JsValue)
| BodyFail (error : Response).

Definition parseRequestBody (body : JsValue) : BodyResult :=
  if negb (ToBoolean body) then
    BodyFail (error_response 400 (js "請求體不得為空。"))
  else
    match JSON_parse body with
    | Normal data => BodyOk data
    | Abrupt parseError =>
      BodyFail (error_response 400 (js "JSON 解析失敗: " ++ message parseError))
    end.

(** [{ valid, error? }]: the success object is [{ valid: true }] alone. *)
Inductive TextValidation : Type :=
| Valid
| Invalid (error : Response).

Definition validateTextLength (text : JsValue) (maxLength : Z) (fieldName : jsstring)
  : TextValidation :=
  if negb (ToBoolean text) || negb (is_string text) then
    Invalid (error_response 400 (fieldName ++ js " 不得為空且必須是字符串。"))
  else if (string_length text >? maxLength)%Z then
    Invalid (error_response 400
               (fieldName ++ js " 超過最大長度 " ++ Z_toString maxLength
                ++ js " 字符（當前: " ++ Z_toString (string_length text) ++ js "）。"))
  else Valid.

(** The defaults of the last two parameters. *)
Definition default_maxLength : Z := 5000.
Definition default_fieldName : jsstring := js "text".

(** [{ success, data?, error? }] *)
Inductive ApiResult : Type :=
| ApiOk (data : JsValue)
| ApiFail (error : Response).

(** The outer [catch (error)] of [callGoogleAPI]. *)
Definition on_fetch_error (timeout : Z) (error : JsError) : ApiResult :=
  if bool_decide (name error = js "AbortError") then
    ApiFail (error_response 504
               (js "請求超時（" ++ Z_toString timeout ++ js "ms）。請稍後重試。"))
  else
    ApiFail (error_response 500 (js "網絡錯誤: " ++ message error)).

(** The options of the one request [callGoogleAPI] sends. *)
Definition post_json (payload : JsValue) : RequestInit :=
  {| method := js "POST";
     request_headers := [(js "Content-Type", js "application/json")];
     request_body := JSON_stringify payload |}.

Definition callGoogleAPI (url : jsstring) (payload : JsValue) (timeout : Z) : Prog ApiResult :=
  let! outcome := trigger (fetch url (post_json payload) timeout) in
  match await_fetch outcome with
  | Resolved response =>
    if negb (res_ok response) then
      match res_text response with
      | Resolved errorText =>
        Ret (ApiFail (error_response (res_status response)
                        (js "Google API 錯誤 (" ++ Z_toString (res_status response)
                         ++ js "): " ++ errorText)))
      | Rejected error => Ret (on_fetch_error timeout error)
      end
    else
      match res_json response with
      | Resolved data => Ret (ApiOk data)
      | Rejected jsonError =>
        Ret (ApiFail (error_response 500
                        (js "無法解析 Google API 響應: " ++ message jsonError)))
      end
  | Rejected error => Ret (on_fetch_error timeout error)
  end.

Definition createSuccessResponse (data : JsValue) : Response :=
  {| statusCode := 200;
     headers := Some [(js "Content-Type", js "application/json");
                      (js "Cache-Control", js "no-cache, no-store, must-revalidate")];
     body := JSON_stringify data |}.

Definition logError (functionName : jsstring) (error : JsError)
    (context : list (jsstring * JsValue)) : Prog unit :=
  trigger (console_error functionName (message error) context).

End Utils.
End Utils.

(** ** What the handlers share with the language

    Both handlers bind properties with an object pattern, which throws on
    null and undefined before any property is read, and both log the head of
    the request body when they catch an error. *)

Section HandlerSupport.
Context `{rt : Runtime}.

Definition TypeError (message : jsstring) : JsError :=
  {| name := js "TypeError"; message := message |}.

(** [new Error(message)] *)
Definition Error (message : jsstring) : JsError :=
  {| name := js "Error"; message := message |}.

(** [const { first, ... } = v]: the check made before the properties are
    read. *)
Definition destructure (v : JsValue) (first : jsstring) : Prog unit :=
  match v with
  | JUndefined | JNull => Raise (TypeError (TypeError_destructure first (ToString v)))
  | _ => Ret tt
  end.

(** [v.substring(0, n)], which only a string has. *)
Definition call_substring (v : JsValue) (n : nat) : Prog JsValue :=
  match v with
  | JString s => Ret (JString (substring0 n s))
  | _ => Raise (TypeError (TypeError_not_a_function (js "substring")))
  end.

(** [v.length] of a value that is not null or undefined. *)
Definition GetLength (v : JsValue) : JsValue :=
  match v with
  | JString s => JNumber (Number_of_Z (Z.of_nat (length s)))
  | JArray xs => JNumber (Number_of_Z (Z.of_nat (length xs)))
  | _ => GetV v (js "length")
  end.

(** [event.body] as a value. *)
Definition body_value (event : HandlerEvent) : JsValue :=
  match event_body event with
  | Some s => JString s
  | None => JNull
  end.

(** [event.body ? event.body.substring(0, 100) : 'null'] *)
Definition body_head (event : HandlerEvent) : jsstring :=
  match event_body event with
  | Some (c :: s) => substring0 100 (c :: s)
  | _ => js "null"
  end.

(** The outermost [catch (error)] of a handler. *)
Definition on_unexpected (functionName : jsstring) (event : HandlerEvent) (error : JsError)
  : Prog Response :=
  do! Utils.logError functionName error [(js "eventBody", JString (body_head event))] in
  Ret (Utils.error_response 500 (js "伺服器錯誤: " ++ message error)).

End HandlerSupport.

(** ** generate-audio.js *)

Module GenerateAudio.
Section GenerateAudio.
Context `{rt : Runtime}.
Import Utils.

Definition GEMINI_TTS_MODEL : jsstring := js "gemini-2.5-flash-preview-tts".
Definition API_TIMEOUT : Z := 45000.
Definition MAX_TEXT_LENGTH : Z := 3000.
Definition VOICE_NAME : jsstring := js "Kore".

Definition googleTtsApiUrl (apiKey : jsstring) : jsstring :=
  URL_append
    (js "https://generativelanguage.googleapis.com/v1beta/models/"
     ++ GEMINI_TTS_MODEL ++ js ":generateContent")
    (js "key") apiKey.

Definition payload (text : JsValue) : JsValue :=
  JObject
    [(js "contents", JArray [JObject [(js "parts", JArray [JObject [(js "text", text)]])]]);
     (js "generationConfig",
      JObject
        [(js "responseModalities", JArray [JString (js "AUDIO")]);
         (js "speechConfig",
          JObject
            [(js "voiceConfig",
              JObject
                [(js "prebuiltVoiceConfig",
                  JObject [(js "voiceName", JString VOICE_NAME)])])])]);
     (js "model", JString GEMINI_TTS_MODEL)].

(** [data?.candidates?.[0]?.content?.parts?.[0]?.inlineData] *)
Definition audioData (data : JsValue) : JsValue :=
  OptionalGet
    (OptionalGet
       (OptionalGet
          (OptionalGet (OptionalGet (OptionalGet data (js "candidates")) (js "0"))
             (js "content"))
          (js "parts"))
       (js "0"))
    (js "inlineData").

(** The value at [candidates[0].content.parts[0].inlineData.data]. *)
Definition inline_audio (data : JsValue) : JsValue :=
  OptionalGet (audioData data) (js "data").

Definition missing_audio_response : Response :=
  error_response 500 (js "語音生成失敗：API 未返回有效的音頻數據。").

(** Steps 7 and 8: what the handler returns once the API call succeeded. *)
Definition after_call (data : JsValue) : Prog Response :=
  if negb (ToBoolean (audioData data)) || negb (ToBoolean (GetV (audioData data) (js "data")))
  then
    do! logError (js "generate-audio") (Error (js "API 響應缺少音頻數據"))
          [(js "hasData", JBool (ToBoolean data));
           (js "hasCandidates", JBool (ToBoolean (OptionalGet data (js "candidates"))))] in
    Ret missing_audio_response
  else Ret (createSuccessResponse data).

Definition handler (env : gmap jsstring jsstring) (event : HandlerEvent) : Prog Response :=
  try_catch
    (match validateApiKey env with
     | ApiKeyFail error => Ret error
     | ApiKeyOk apiKey =>
       match parseRequestBody (body_value event) with
       | BodyFail error => Ret error
       | BodyOk data =>
         do! destructure data (js "text") in
         let text := GetV data (js "text") in
         match validateTextLength text MAX_TEXT_LENGTH (js "text") with
         | Invalid error => Ret error
         | Valid =>
           let! apiResult := callGoogleAPI (googleTtsApiUrl apiKey) (payload text) API_TIMEOUT in
           match apiResult with
           | ApiFail error =>
             do! logError (js "generate-audio") (Error (js "TTS API 調用失敗"))
                   [(js "textLength", GetLength text);
                    (js "voiceName", JString VOICE_NAME)] in
             Ret error
           | ApiOk data' => after_call data'
           end
         end
       end
     end)
    (on_unexpected (js "generate-audio") event).

End GenerateAudio.
End GenerateAudio.

(** ** generate-text.js *)

Module GenerateText.
Section GenerateText.
Context `{rt : Runtime}.
Import Utils.

Definition GEMINI_MODEL : jsstring := js "gemini-2.5-flash-preview-09-2025".
Definition API_TIMEOUT : Z := 30000.
Definition MAX_PROMPT_LENGTH : Z := 5000.

Definition googleApiUrl (apiKey : jsstring) : jsstring :=
  URL_append
    (js "https://generativelanguage.googleapis.com/v1beta/models/"
     ++ GEMINI_MODEL ++ js ":generateContent")
    (js "key") apiKey.

Definition payload (prompt systemInstruction : JsValue) : JsValue :=
  JObject
    ((js "contents", JArray [JObject [(js "parts", JArray [JObject [(js "text", prompt)]])]])
     :: if ToBoolean systemInstruction
        then [(js "systemInstruction",
               JObject [(js "parts", JArray [JObject [(js "text", systemInstruction)]])])]
        else []).

(** Steps 5 to 8, after both fields passed validation. *)
Definition call_and_respond (apiKey : jsstring) (prompt systemInstruction : JsValue)
  : Prog Response :=
  let! apiResult :=
    callGoogleAPI (googleApiUrl apiKey) (payload prompt systemInstruction) API_TIMEOUT in
  match apiResult with
  | ApiFail error =>
    let! head := call_substring prompt 100 in
    do! logError (js "generate-text") (Error (js "API 調用失敗"))
          [(js "prompt", head);
           (js "hasSystemInstruction", JBool (ToBoolean systemInstruction))] in
    Ret error
  | ApiOk data => Ret (createSuccessResponse data)
  end.

Definition handler (env : gmap jsstring jsstring) (event : HandlerEvent) : Prog Response :=
  try_catch
    (match validateApiKey env with
     | ApiKeyFail error => Ret error
     | ApiKeyOk apiKey =>
       match parseRequestBody (body_value event) with
       | BodyFail error => Ret error
       | BodyOk data =>
         do! destructure data (js "prompt") in
         let prompt := GetV data (js "prompt") in
         let systemInstruction := GetV data (js "systemInstruction") in
         match validateTextLength prompt MAX_PROMPT_LENGTH (js "prompt") with
         | Invalid error => Ret error
         | Valid =>
           match
             if ToBoolean systemInstruction
             then validateTextLength systemInstruction MAX_PROMPT_LENGTH
                    (js "systemInstruction")
             else Valid
           with
           | Invalid error => Ret error
           | Valid => call_and_respond apiKey prompt systemInstruction
           end
         end
       end
     end)
    (on_unexpected (js "generate-text") event).

End GenerateText.
End GenerateText.

(** ** A run time to evaluate with

    Numbers are the integers: a Number is written as its decimal numeral and
    a literal is read up to the end of its integer part.  It serves to run
    the definitions on concrete requests. *)

Definition Z_of_literal (tok : jsstring) : Z :=
  match tok with
  | c :: t =>
    if (c =? 45)%N then (- Z.of_N (digits_value (span_digits t).1))%Z
    else Z.of_N (digits_value (span_digits tok).1)
  | [] => 0%Z
  end.

Definition IntegerRuntime : Runtime :=
  {| Num := Z;
     Num_eq_dec := Z.eq_dec;
     Number_of_Z := fun z => z;
     Number_toString := Z_toString;
     StringToNumber := Z_of_literal;
     Number_isFinite := fun _ => true;
     Number_toBoolean := fun z => negb (z =? 0)%Z;
     SyntaxError_message := fun text => js "Unexpected token in JSON";
     TypeError_destructure := fun p v =>
       js "Cannot destructure property '" ++ p ++ js "' of 'parseResult.data' as it is "
       ++ v ++ js ".";
     TypeError_not_a_function := fun m => m ++ js " is not a function";
     URL_append := fun base k v => base ++ js "?" ++ k ++ js "=" ++ v |}.

(** A world in which every request meets the same outcome, and sample data
    to run the handlers on. *)
Definition world_of (outcome : @FetchOutcome IntegerRuntime) : @World IntegerRuntime :=
  fun X ev =>
    match ev in IO X' return X' with
    | fetch _ _ _ => outcome
    | console_error _ _ _ => tt
    end.

Definition sample_env : gmap jsstring jsstring := {[ js "GEMINI_API_KEY" := js "test-key" ]}.

Definition sample_audio : @JsValue IntegerRuntime :=
  JObject
    [(js "candidates",
      JArray
        [JObject
           [(js "content",
             JObject
               [(js "parts",
                 JArray
                   [JObject
                      [(js "inlineData",
                        JObject [(js "mimeType", JString (js "audio/L16"));
                                 (js "data", JString (js "UklGRg=="))])]])]);
            (js "index", JNumber (0%Z : @Num IntegerRuntime))]])].

Definition sample_response (status : Z) (text : jsstring) : @FetchResponse IntegerRuntime :=
  {| res_status := status;
     res_text := Resolved text;
     res_json :=
       match JSON_parse_text text with
       | Normal data => Resolved data
       | Abrupt e => Rejected e
       end |}.

(** ** Requests that pass validation

    What the steps 1 to 3 (audio) and 1 to 4 (text) of a handler let
    through: the credential is set, the body parses to a value that can be
    destructured, and the fields read from it pass the length checks. *)

Section Accepted.
Context `{rt : Runtime}.
Import Utils.

Definition audio_accepted (env : gmap jsstring jsstring) (event : HandlerEvent)
    (apiKey : jsstring) (text : JsValue) : Prop :=
  validateApiKey env = ApiKeyOk apiKey ∧
  ∃ data,
    parseRequestBody (body_value event) = BodyOk data ∧
    data ≠ JNull ∧ data ≠ JUndefined ∧
    GetV data (js "text") = text ∧
    validateTextLength text GenerateAudio.MAX_TEXT_LENGTH (js "text") = Valid.

Definition text_accepted (env : gmap jsstring jsstring) (event : HandlerEvent)
    (apiKey : jsstring) (prompt systemInstruction : JsValue) : Prop :=
  validateApiKey env = ApiKeyOk apiKey ∧
  ∃ data,
    parseRequestBody (body_value event) = BodyOk data ∧
    data ≠ JNull ∧ data ≠ JUndefined ∧
    GetV data (js "prompt") = prompt ∧
    GetV data (js "systemInstruction") = systemInstruction ∧
    validateTextLength prompt GenerateText.MAX_PROMPT_LENGTH (js "prompt") = Valid ∧
    (ToBoolean systemInstruction = true →
     validateTextLength systemInstruction GenerateText.MAX_PROMPT_LENGTH
       (js "systemInstruction") = Valid).


(** What the audio handler does with the result of the API call. *)
Definition audio_answer (result : ApiResult) : Response :=
  match result with
  | ApiFail error => error
  | ApiOk data =>
    if ToBoolean (GenerateAudio.inline_audio data)
    then createSuccessResponse data
    else GenerateAudio.missing_audio_response
  end.

(** What the text handler does with it. *)
Definition text_answer (result : ApiResult) : Response :=
  match result with
  | ApiFail error => error
  | ApiOk data => createSuccessResponse data
  end.

(** A message of the source other than the generic one: it does not start
    the way the generic one does. *)
Definition specific (msg : jsstring) : Prop := startsWith msg (js "伺服器錯誤: ") = false.

(** A handler either met a body that parses to null, or answers with the
    success response or with one of the specific errors. *)
Definition null_or_specific (env : gmap jsstring jsstring) (event : HandlerEvent)
    (outcome : Completion Response) : Prop :=
  (∃ apiKey, validateApiKey env = ApiKeyOk apiKey ∧
             parseRequestBody (body_value event) = BodyOk JNull) ∨
  (∃ data, outcome = Normal (createSuccessResponse data)) ∨
  (∃ code msg, outcome = Normal (error_response code msg) ∧ specific msg).

End Accepted.

(** ** What a program writes to the console *)



(** Two requests that pass validation. *)
Definition sample_audio_event : HandlerEvent :=
  {| event_body := Some (js_quoted "{'text':'Hello'}") |}.

Definition sample_text_event : HandlerEvent :=
  {| event_body := Some (js_quoted "{'prompt':'Hi','systemInstruction':'Be brief'}") |}.

(** * Properties *)

(** ** Strings *)

Lemma startsWith_app (needle rest : jsstring) : startsWith (needle ++ rest) needle = true.
Proof.
  induction needle as [|c needle IH]; simpl; [reflexivity|].
  rewrite N.eqb_refl. exact IH.
Qed.

Lemma includes_app (before needle after : jsstring) :
  includes (before ++ needle ++ after) needle = true.
Proof.
  induction before as [|c before IH]; simpl.
  - destruct needle as [|c needle]; [destruct after; reflexivity|].
    simpl. rewrite N.eqb_refl, startsWith_app. reflexivity.
  - rewrite IH. apply orb_true_r.
Qed.

Lemma includes_prefix (needle after : jsstring) : includes (needle ++ after) needle = true.
Proof. apply (includes_app [] needle after). Qed.

(** ** String literals are read back *)

Lemma hex_value_hex_digit (n : N) : (n < 16)%N → hex_value (hex_digit n) = Some n.
Proof.
  intros Hn.
  assert (Hc : In n (map N.of_nat (seq 0 16))).
  { apply in_map_iff. exists (N.to_nat n). split; [lia|]. apply in_seq. lia. }
  simpl in Hc. repeat (destruct Hc as [<- | Hc]; [reflexivity|]). destruct Hc.
Qed.

Lemma hex4_UnicodeEscape (c : N) (X : jsstring) :
  (c < 65536)%N →
  parse_chars (UnicodeEscape c ++ X) = prepend c (parse_chars X).
Proof.
  intros Hc. unfold UnicodeEscape. cbn [app parse_chars].
  change (92 =? 34)%N with false. change (92 =? 92)%N with true.
  change (117 =? 117)%N with true. cbv iota.
  unfold hex4.
  rewrite !hex_value_hex_digit by (apply N.mod_lt; discriminate).
  cbn [prepend]. 
  assert (E : (4096 * (c / 4096 mod 16) + 256 * (c / 256 mod 16) + 16 * (c / 16 mod 16) + c mod 16 = c)%N).
  { clear X. zify. Z.to_euclidean_division_equations. lia. }
  rewrite E. reflexivity.
Qed.

Lemma parse_chars_raw (c : N) (X : jsstring) :
  c ≠ 34%N → c ≠ 92%N → (32 <= c)%N →
  parse_chars (c :: X) = prepend c (parse_chars X).
Proof.
  intros H1 H2 H3. cbn [parse_chars].
  destruct (N.eqb_spec c 34); [contradiction|].
  destruct (N.eqb_spec c 92); [contradiction|].
  destruct (N.ltb_spec c 32); [lia|]. reflexivity.
Qed.

Lemma parse_chars_quote_unit (c : N) (X : jsstring) :
  parse_chars (quote_unit c ++ X) = prepend c (parse_chars X).
Proof.
  unfold quote_unit.
  repeat match goal with
         | |- context [(c =? ?k)%N] =>
           destruct (N.eqb_spec c k); [subst c; reflexivity|]
         end.
  destruct ((c <? 32)%N || is_leading_surrogate c || is_trailing_surrogate c) eqn:E.
  - apply hex4_UnicodeEscape.
    unfold is_leading_surrogate, is_trailing_surrogate in E. lia.
  - apply parse_chars_raw; [assumption..|]. lia.
Qed.

Lemma quote_units_cons2 (c d : N) (t : jsstring) :
  quote_units (c :: d :: t) =
  if is_leading_surrogate c && is_trailing_surrogate d
  then c :: d :: quote_units t
  else quote_unit c ++ quote_units (d :: t).
Proof. reflexivity. Qed.

Lemma parse_chars_quote_units (s rest : jsstring) :
  parse_chars (quote_units s ++ 34%N :: rest) = Some (s, rest).
Proof.
  remember (length s) as n eqn:Hn.
  revert s Hn. induction (lt_wf n) as [n _ IH]. intros s ->.
  destruct s as [|c [|d t]].
  - reflexivity.
  - cbn [quote_units]. rewrite parse_chars_quote_unit. reflexivity.
  - rewrite quote_units_cons2.
    destruct (is_leading_surrogate c && is_trailing_surrogate d) eqn:E.
    + apply andb_true_iff in E as [Ec Ed].
      unfold is_leading_surrogate in Ec. unfold is_trailing_surrogate in Ed.
      cbn [app]. rewrite !parse_chars_raw by lia.
      rewrite (IH (length t) ltac:(simpl; lia) t eq_refl). reflexivity.
    + rewrite <- app_assoc, parse_chars_quote_unit.
      rewrite (IH (length (d :: t)) ltac:(simpl; lia) (d :: t) eq_refl). reflexivity.
Qed.

(** ** A number literal is read the same in front of more text *)

Lemma span_digits_app (s rest : jsstring) :
  ends_number rest = true →
  span_digits (s ++ rest) = ((span_digits s).1, (span_digits s).2 ++ rest).
Proof.
  intros Hrest. induction s as [|c s IH]; simpl.
  - destruct rest as [|r rest]; [reflexivity|]. simpl.
    unfold ends_number in Hrest.
    destruct (is_digit r); [discriminate|reflexivity].
  - destruct (is_digit c); [|reflexivity].
    rewrite IH. destruct (span_digits s); reflexivity.
Qed.

Lemma lex_int_app (s rest tok r : jsstring) :
  ends_number rest = true →
  lex_int s = Some (tok, r) → lex_int (s ++ rest) = Some (tok, r ++ rest).
Proof.
  intros Hrest. destruct s as [|c s]; [discriminate|]. simpl.
  destruct (c =? 48)%N; [intros [= <- <-]; reflexivity|].
  destruct (is_digit c); [|discriminate].
  rewrite (span_digits_app _ _ Hrest). destruct (span_digits s).
  intros [= <- <-]. reflexivity.
Qed.

Lemma lex_frac_app (s rest tok r : jsstring) :
  ends_number rest = true →
  lex_frac s = Some (tok, r) → lex_frac (s ++ rest) = Some (tok, r ++ rest).
Proof.
  intros Hrest. destruct s as [|c s]; simpl.
  - intros [= <- <-]. destruct rest as [|x rest]; [reflexivity|]. simpl.
    simpl in Hrest. destruct (x =? 46)%N; [|reflexivity].
    rewrite !orb_true_r in Hrest. discriminate.
  - destruct (c =? 46)%N; [|intros [= <- <-]; reflexivity].
    rewrite (span_digits_app _ _ Hrest). destruct (span_digits s) as [[|d ds] r'];
      [discriminate|]. intros [= <- <-]. reflexivity.
Qed.

Lemma lex_exp_app (s rest tok r : jsstring) :
  ends_number rest = true →
  lex_exp s = Some (tok, r) → lex_exp (s ++ rest) = Some (tok, r ++ rest).
Proof.
  intros Hrest. destruct s as [|c s]; simpl.
  - intros [= <- <-]. destruct rest as [|x rest]; [reflexivity|]. simpl.
    simpl in Hrest. destruct ((x =? 101)%N || (x =? 69)%N) eqn:E; [|reflexivity].
    exfalso. lia.
  - destruct ((c =? 101)%N || (c =? 69)%N); [|intros [= <- <-]; reflexivity].
    destruct s as [|sg s]; [discriminate|]. cbn [app].
    destruct ((sg =? 43)%N || (sg =? 45)%N).
    + rewrite (span_digits_app _ _ Hrest). destruct (span_digits s) as [[|d ds] r'];
        [discriminate|]. intros [= <- <-]. reflexivity.
    + change (sg :: s ++ rest) with ((sg :: s) ++ rest).
      rewrite (span_digits_app _ _ Hrest). destruct (span_digits (sg :: s)) as [[|d ds] r'];
        [discriminate|]. intros [= <- <-]. reflexivity.
Qed.

Lemma lex_unsigned_app (s rest tok r : jsstring) :
  ends_number rest = true →
  lex_unsigned s = Some (tok, r) → lex_unsigned (s ++ rest) = Some (tok, r ++ rest).
Proof.
  intros Hrest. unfold lex_unsigned.
  destruct (lex_int s) as [[i r1]|] eqn:Ei; [|discriminate].
  rewrite (lex_int_app _ _ _ _ Hrest Ei).
  destruct (lex_frac r1) as [[f r2]|] eqn:Ef; [|discriminate].
  rewrite (lex_frac_app _ _ _ _ Hrest Ef).
  destruct (lex_exp r2) as [[e r3]|] eqn:Ee; [|discriminate].
  rewrite (lex_exp_app _ _ _ _ Hrest Ee).
  intros [= <- <-]. reflexivity.
Qed.

Lemma lex_number_app (s rest tok r : jsstring) :
  ends_number rest = true →
  lex_number s = Some (tok, r) → lex_number (s ++ rest) = Some (tok, r ++ rest).
Proof.
  intros Hrest. destruct s as [|c s]; [discriminate|]. simpl.
  destruct (c =? 45)%N.
  - destruct (lex_unsigned s) as [[tok' r']|] eqn:E; [|discriminate].
    rewrite (lex_unsigned_app _ _ _ _ Hrest E). intros [= <- <-]. reflexivity.
  - apply (lex_unsigned_app (c :: s)). exact Hrest.
Qed.

(** The first character of a number literal is a minus sign or a digit. *)
Lemma lex_number_head (s tok r : jsstring) :
  lex_number s = Some (tok, r) →
  ∃ c t, s = c :: t ∧ (c = 45%N ∨ is_digit c = true).
Proof.
  destruct s as [|c s]; [discriminate|]. intros H. exists c, s. split; [reflexivity|].
  simpl in H. destruct (N.eqb_spec c 45); [left; assumption|right].
  unfold lex_unsigned, lex_int in H.
  destruct (N.eqb_spec c 48); [subst c; reflexivity|].
  destruct (is_digit c); [reflexivity|discriminate].
Qed.

(** ** Property order *)

Section PropertyOrder.
Context {A : Type}.
Implicit Types (ps : list (jsstring * A)) (k : jsstring).

Lemma in_property_order_snoc (ks : list jsstring) k :
  in_property_order (ks ++ [k]) = true →
  in_property_order ks = true ∧
  Forall (fun k' => k ≠ k' ∧ goes_before k k' = false) ks.
Proof.
  induction ks as [|k0 ks IH]; simpl; [split; [reflexivity|constructor]|].
  rewrite andb_true_iff, forallb_app, andb_true_iff. simpl.
  intros [[Hks Hk] Hrest]. destruct (IH Hrest) as [IH1 IH2].
  rewrite Hks, IH1. split; [reflexivity|]. constructor; [|exact IH2].
  rewrite andb_true_r, andb_true_iff, !negb_true_iff in Hk. destruct Hk as [Hne Hgb].
  split; [|exact Hgb]. intros ->. rewrite bool_decide_eq_false in Hne. contradiction.
Qed.

Lemma lookup_property_fresh k ps :
  Forall (fun k' => k ≠ k') (map fst ps) → lookup_property k ps = None.
Proof.
  induction ps as [|[k' v'] ps IH]; simpl; [reflexivity|].
  intros H. inversion H as [|? ? Hk Hps]; subst.
  rewrite bool_decide_eq_false_2 by assumption. auto.
Qed.

Lemma insert_property_last k (v : A) ps :
  Forall (fun k' => goes_before k k' = false) (map fst ps) →
  insert_property k v ps = ps ++ [(k, v)].
Proof.
  induction ps as [|[k' v'] ps IH]; simpl; [reflexivity|].
  intros H. inversion H as [|? ? Hk Hps]; subst.
  rewrite Hk, IH by assumption. reflexivity.
Qed.

Lemma CreateDataProperty_last k (v : A) ps :
  in_property_order (map fst (ps ++ [(k, v)])) = true →
  CreateDataProperty ps k v = ps ++ [(k, v)].
Proof.
  rewrite map_app. simpl. intros H.
  apply in_property_order_snoc in H as [_ H].
  unfold CreateDataProperty.
  rewrite lookup_property_fresh.
  - apply insert_property_last. eapply Forall_impl; [exact H|]. intros ? [_ ?]; assumption.
  - eapply Forall_impl; [exact H|]. intros ? [? _]; assumption.
Qed.

Lemma in_property_order_prefix (ks : list jsstring) k :
  in_property_order (ks ++ [k]) = true → in_property_order ks = true.
Proof. intros H. apply (in_property_order_snoc _ _ H). Qed.

End PropertyOrder.

(** ** JSON.parse reads back what JSON.stringify writes *)

Section RoundTrip.
Context `{rt : Runtime}.

Lemma JsValue_ind (P : JsValue → Prop) :
  P JUndefined → P JNull → (∀ b, P (JBool b)) → (∀ n, P (JNumber n)) →
  (∀ s, P (JString s)) →
  (∀ xs, Forall P xs → P (JArray xs)) →
  (∀ ps, Forall (fun p => P p.2) ps → P (JObject ps)) →
  ∀ v, P v.
Proof.
  intros Hu Hn Hb Hnum Hs Ha Ho.
  fix IH 1. intros [| |b|n|s|xs|ps].
  - exact Hu.
  - exact Hn.
  - apply Hb.
  - apply Hnum.
  - apply Hs.
  - apply Ha. induction xs as [|x xs IHxs]; constructor; [apply IH|exact IHxs].
  - apply Ho. induction ps as [|[k x] ps IHps]; constructor; [apply IH|exact IHps].
Qed.

Lemma SerializeJSONProperty_array (xs : list JsValue) :
  SerializeJSONProperty (JArray xs) = Some (91%N :: join [44%N] (elements_text xs) ++ [93%N]).
Proof.
  reflexivity.
Qed.

Lemma SerializeJSONProperty_object (ps : list (jsstring * JsValue)) :
  SerializeJSONProperty (JObject ps) = Some (123%N :: join [44%N] (members_text ps) ++ [125%N]).
Proof.
  reflexivity.
Qed.

Lemma json_serializable_array (xs : list JsValue) :
  json_serializable (JArray xs) = forallb json_serializable xs.
Proof. reflexivity. Qed.

Lemma json_serializable_object (ps : list (jsstring * JsValue)) :
  json_serializable (JObject ps) =
  in_property_order (map fst ps) && forallb (fun p => json_serializable p.2) ps.
Proof.
  simpl. f_equal. induction ps as [|[k x] ps IH]; simpl; [reflexivity|]. f_equal. exact IH.
Qed.

Lemma skip_ws_head (c : N) (t : jsstring) : is_ws c = false → skip_ws (c :: t) = c :: t.
Proof. intros H. simpl. rewrite H. reflexivity. Qed.

(** A serialised value starts with a character that is not white space and
    closes no array; [parse_value] reads it back in front of any text at
    which a number can stop. *)
Let reads_back (v : JsValue) : Prop :=
  json_serializable v = true →
  ∃ c t, SerializeJSONProperty v = Some (c :: t) ∧ is_ws c = false ∧ c ≠ 93%N ∧
    ∀ fuel rest, 2 * length (c :: t) < fuel → ends_number rest = true →
      parse_value fuel (c :: t ++ rest) = Parsed v rest.

Lemma reads_back_number (n : Num) : reads_back (JNumber n).
Proof.
  intros Hs. simpl in Hs. unfold number_serializable, is_number_literal in Hs.
  apply andb_true_iff in Hs as [Hs Hback]. apply andb_true_iff in Hs as [Hfin Hlit].
  apply bool_decide_eq_true in Hlit, Hback.
  destruct (lex_number_head _ _ _ Hlit) as (c & t & E & Hc).
  exists c, t. simpl. rewrite Hfin, E.
  split; [reflexivity|].
  assert (Hrange : c = 45%N ∨ (48 <= c <= 57)%N).
  { destruct Hc as [Hc|Hc]; [left; exact Hc|right]. unfold is_digit in Hc. lia. }
  split; [unfold is_ws; lia|]. split; [lia|].
  intros [|fuel] rest Hfuel Hrest; [simpl in Hfuel; lia|].
  assert (Hlex : lex_number ((c :: t) ++ rest) = Some (c :: t, rest)).
  { rewrite <- E in *. apply (lex_number_app _ _ _ [] Hrest Hlit). }
  cbn [parse_value]. cbn [app] in Hlex. rewrite Hlex.
  replace (c =? 110)%N with false by lia.
  replace (c =? 116)%N with false by lia.
  replace (c =? 102)%N with false by lia.
  replace (c =? 34)%N with false by lia.
  replace (c =? 91)%N with false by lia.
  replace (c =? 123)%N with false by lia.
  rewrite <- E, Hback. reflexivity.
Qed.

Lemma reads_back_string (s : jsstring) : reads_back (JString s).
Proof.
  intros _. exists 34%N, (quote_units s ++ [34%N]).
  split; [reflexivity|]. split; [reflexivity|]. split; [discriminate|].
  intros [|fuel] rest Hfuel Hrest; [simpl in Hfuel; lia|].
  cbn [parse_value]. change (34 =? 110)%N with false. change (34 =? 116)%N with false.
  change (34 =? 102)%N with false. change (34 =? 34)%N with true. cbv iota.
  rewrite <- app_assoc. cbn [app]. rewrite parse_chars_quote_units. reflexivity.
Qed.

Lemma reads_back_null : reads_back JNull.
Proof.
  intros _. exists 110%N, (js "ull").
  split; [reflexivity|]. split; [reflexivity|]. split; [discriminate|].
  intros [|fuel] rest Hfuel Hrest; [simpl in Hfuel; lia|]. reflexivity.
Qed.

Lemma reads_back_bool (b : bool) : reads_back (JBool b).
Proof.
  intros _. destruct b.
  - exists 116%N, (js "rue").
    split; [reflexivity|]. split; [reflexivity|]. split; [discriminate|].
    intros [|fuel] rest Hfuel Hrest; [simpl in Hfuel; lia|]. reflexivity.
  - exists 102%N, (js "alse").
    split; [reflexivity|]. split; [reflexivity|]. split; [discriminate|].
    intros [|fuel] rest Hfuel Hrest; [simpl in Hfuel; lia|]. reflexivity.
Qed.

Lemma parse_elements_S (fuel : nat) (s : jsstring) :
  parse_elements (S fuel) s =
  match parse_value fuel s with
  | Parsed v rest =>
    match skip_ws rest with
    | [] => Malformed
    | c :: t =>
      if (c =? 44)%N then
        match parse_elements fuel (skip_ws t) with
        | Parsed vs rest' => Parsed (v :: vs) rest'
        | Malformed => Malformed
        | Exhausted => Exhausted
        end
      else if (c =? 93)%N then Parsed [v] t
      else Malformed
    end
  | Malformed => Malformed
  | Exhausted => Exhausted
  end.
Proof. reflexivity. Qed.

Lemma join_cons (sep p : jsstring) (rest : list jsstring) :
  rest ≠ [] → join sep (p :: rest) = p ++ sep ++ join sep rest.
Proof. destruct rest; [congruence|reflexivity]. Qed.

Lemma parse_elements_serialized (xs : list JsValue) :
  Forall reads_back xs → forallb json_serializable xs = true → xs ≠ [] →
  ∃ c t, join [44%N] (elements_text xs) = c :: t ∧ is_ws c = false ∧ c ≠ 93%N ∧
    ∀ fuel rest, 2 * length (c :: t) + 1 < fuel →
      parse_elements fuel (c :: t ++ 93%N :: rest) = Parsed xs rest.
Proof.
  induction xs as [|x xs IH]; [congruence|].
  intros Hall Hser _. inversion Hall as [|? ? Hx Hxs]; subst.
  simpl in Hser. apply andb_true_iff in Hser as [Hsx Hsxs].
  destruct (Hx Hsx) as (c & t & Ex & Hws & Hc & Hparse).
  exists c. destruct xs as [|y xs].
  - exists t. unfold elements_text. simpl. rewrite Ex. simpl.
    split; [reflexivity|]. split; [assumption|]. split; [assumption|].
    intros [|fuel] rest Hfuel; [lia|].
    rewrite parse_elements_S, Hparse by (simpl in *; lia || reflexivity).
    reflexivity.
  - destruct (IH Hxs Hsxs ltac:(discriminate)) as (c' & t' & Ej & Hws' & Hc' & Hrest).
    exists (t ++ [44%N] ++ c' :: t').
    change (elements_text (x :: y :: xs))
      with (default (js "null") (SerializeJSONProperty x) :: elements_text (y :: xs)).
    rewrite join_cons, Ej, Ex by discriminate. simpl.
    split; [reflexivity|]. split; [assumption|]. split; [assumption|].
    intros [|fuel] rest Hfuel; [lia|].
    rewrite parse_elements_S.
    rewrite <- app_assoc. cbn [app].
    rewrite Hparse; [|simpl in *; rewrite length_app in Hfuel; simpl in Hfuel; lia|reflexivity].
    rewrite skip_ws_head by reflexivity. change (44 =? 44)%N with true. cbv iota.
    rewrite skip_ws_head by assumption.
    rewrite Hrest; [reflexivity|].
    simpl in *. rewrite length_app in Hfuel. simpl in Hfuel. lia.
Qed.

Lemma parse_members_S (fuel : nat) (t : jsstring) :
  parse_members (S fuel) (34%N :: t) =
  match parse_chars t with
  | None => Malformed
  | Some (key, rest) =>
    match skip_ws rest with
    | [] => Malformed
    | c1 :: t1 =>
      if (c1 =? 58)%N then
        match parse_value fuel (skip_ws t1) with
        | Parsed v rest2 =>
          match skip_ws rest2 with
          | [] => Malformed
          | c2 :: t2 =>
            if (c2 =? 44)%N then
              match parse_members fuel (skip_ws t2) with
              | Parsed ms rest' => Parsed ((key, v) :: ms) rest'
              | Malformed => Malformed
              | Exhausted => Exhausted
              end
            else if (c2 =? 125)%N then Parsed [(key, v)] t2
            else Malformed
          end
        | Malformed => Malformed
        | Exhausted => Exhausted
        end
      else Malformed
    end
  end.
Proof. reflexivity. Qed.

Lemma parse_members_serialized (ps : list (jsstring * JsValue)) :
  Forall (fun p => reads_back p.2) ps →
  forallb (fun p => json_serializable p.2) ps = true → ps ≠ [] →
  ∃ t, join [44%N] (members_text ps) = 34%N :: t ∧
    ∀ fuel rest, 2 * length (34%N :: t) + 1 < fuel →
      parse_members fuel (34%N :: t ++ 125%N :: rest) = Parsed ps rest.
Proof.
  induction ps as [|[k x] ps IH]; [congruence|].
  intros Hall Hser _. inversion Hall as [|? ? Hx Hps]; subst.
  simpl in Hser. apply andb_true_iff in Hser as [Hsx Hsps].
  destruct (Hx Hsx) as (c & t & Ex & Hws & Hc & Hparse). simpl in Ex.
  destruct ps as [|q ps].
  - exists (quote_units k ++ [34%N] ++ 58%N :: c :: t).
    simpl. rewrite Ex. simpl. rewrite <- app_assoc.
    split; [reflexivity|].
    intros [|fuel] rest Hfuel; [lia|].
    rewrite parse_members_S. rewrite <- app_assoc. cbn [app].
    rewrite parse_chars_quote_units.
    rewrite skip_ws_head by reflexivity. change (58 =? 58)%N with true. cbv iota.
    rewrite skip_ws_head by assumption.
    rewrite Hparse; [reflexivity| |reflexivity].
    simpl in *. rewrite !length_app in Hfuel. simpl in Hfuel. lia.
  - destruct (IH Hps Hsps ltac:(discriminate)) as (t' & Ej & Hrest).
    exists (quote_units k ++ [34%N] ++ 58%N :: (c :: t) ++ [44%N] ++ 34%N :: t').
    change (members_text ((k, x) :: q :: ps))
      with (match SerializeJSONProperty x with
            | Some t => (QuoteJSONString k ++ 58%N :: t) :: members_text (q :: ps)
            | None => members_text (q :: ps)
            end).
    assert (Hne : members_text (q :: ps) ≠ []) by (intros E0; rewrite E0 in Ej; discriminate).
    rewrite Ex, join_cons, Ej by exact Hne.
    split; [unfold QuoteJSONString; simpl; rewrite <- !app_assoc; reflexivity|].
    intros [|fuel] rest Hfuel; [lia|].
    rewrite parse_members_S. rewrite <- !app_assoc. cbn [app].
    rewrite parse_chars_quote_units.
    rewrite skip_ws_head by reflexivity. change (58 =? 58)%N with true. cbv iota.
    rewrite skip_ws_head by assumption.
    rewrite <- app_assoc. cbn [app].
    assert (Hlen : 2 * length (c :: t) < fuel ∧ 2 * length (34%N :: t') + 1 < fuel).
    { simpl in *. rewrite !length_app in Hfuel. simpl in Hfuel.
      rewrite !length_app in Hfuel. simpl in Hfuel. lia. }
    rewrite Hparse; [|apply Hlen|reflexivity].
    rewrite skip_ws_head by reflexivity. change (44 =? 44)%N with true. cbv iota.
    rewrite skip_ws_head by reflexivity.
    rewrite Hrest; [reflexivity|apply Hlen].
Qed.

Lemma object_of_members_ordered (ps : list (jsstring * JsValue)) :
  in_property_order (map fst ps) = true → object_of_members ps = ps.
Proof.
  unfold object_of_members.
  induction ps as [|[k x] ps IH] using rev_ind; [reflexivity|].
  intros H. rewrite fold_left_app. simpl.
  rewrite IH by (rewrite map_app in H; apply (in_property_order_prefix _ _ H)).
  apply CreateDataProperty_last. exact H.
Qed.

Lemma parse_value_serialized (v : JsValue) : reads_back v.
Proof.
  induction v as [| |b|n|s|xs IHxs|ps IHps] using JsValue_ind.
  - intros H; discriminate.
  - apply reads_back_null.
  - apply reads_back_bool.
  - apply reads_back_number.
  - apply reads_back_string.
  - intros Hs. rewrite json_serializable_array in Hs.
    rewrite SerializeJSONProperty_array.
    exists 91%N, (join [44%N] (elements_text xs) ++ [93%N]).
    split; [reflexivity|]. split; [reflexivity|]. split; [discriminate|].
    intros [|fuel] rest Hfuel Hrest; [simpl in Hfuel; lia|].
    destruct xs as [|x xs]; [reflexivity|].
    destruct (parse_elements_serialized (x :: xs) IHxs Hs ltac:(discriminate))
      as (c & t & Ej & Hws & Hc & Hparse).
    rewrite Ej in *. cbn [parse_value].
    change (91 =? 110)%N with false. change (91 =? 116)%N with false.
    change (91 =? 102)%N with false. change (91 =? 34)%N with false.
    change (91 =? 91)%N with true. cbv iota.
    rewrite <- app_assoc. cbn [app]. rewrite skip_ws_head by assumption.
    replace (c =? 93)%N with false by lia.
    rewrite Hparse; [reflexivity|].
    simpl in *. rewrite length_app in Hfuel. simpl in Hfuel. lia.
  - intros Hs. rewrite json_serializable_object in Hs.
    apply andb_true_iff in Hs as [Hord Hs].
    rewrite SerializeJSONProperty_object.
    exists 123%N, (join [44%N] (members_text ps) ++ [125%N]).
    split; [reflexivity|]. split; [reflexivity|]. split; [discriminate|].
    intros [|fuel] rest Hfuel Hrest; [simpl in Hfuel; lia|].
    destruct ps as [|p ps]; [reflexivity|].
    destruct (parse_members_serialized (p :: ps) IHps Hs ltac:(discriminate))
      as (t & Ej & Hparse).
    rewrite Ej in *. cbn [parse_value].
    change (123 =? 110)%N with false. change (123 =? 116)%N with false.
    change (123 =? 102)%N with false. change (123 =? 34)%N with false.
    change (123 =? 91)%N with false. change (123 =? 123)%N with true. cbv iota.
    rewrite <- app_assoc. cbn [app]. rewrite skip_ws_head by reflexivity.
    change (34 =? 125)%N with false. cbv iota.
    rewrite Hparse; [rewrite object_of_members_ordered by assumption; reflexivity|].
    simpl in *. rewrite length_app in Hfuel. simpl in Hfuel. lia.
Qed.

(** [JSON.parse(JSON.stringify(v))] is [v] for every value JSON represents
    exactly. *)
Lemma JSON_parse_stringify (v : JsValue) :
  json_serializable v = true →
  ∃ s, JSON_stringify v = Some s ∧ JSON_parse_text s = Normal v.
Proof.
  intros Hs. destruct (parse_value_serialized v Hs) as (c & t & E & Hws & _ & Hparse).
  exists (c :: t). split; [exact E|].
  unfold JSON_parse_text. rewrite skip_ws_head by assumption.
  specialize (Hparse (2 * length (c :: t) + 1) [] ltac:(lia) eq_refl).
  rewrite app_nil_r in Hparse. rewrite Hparse. reflexivity.
Qed.

End RoundTrip.

(** ** The fuel of JSON_parse_text is never used up *)

Lemma skip_ws_length (s : jsstring) : length (skip_ws s) <= length s.
Proof.
  induction s as [|c s IH]; simpl; [lia|]. destruct (is_ws c); simpl; lia.
Qed.

Lemma prepend_Some (c : N) (r : option (jsstring * jsstring)) (str rest : jsstring) :
  prepend c r = Some (str, rest) → ∃ str', r = Some (str', rest).
Proof. destruct r as [[str' rest']|]; [|discriminate]. intros [= _ <-]. eauto. Qed.

Lemma parse_chars_shrinks (s str r : jsstring) :
  parse_chars s = Some (str, r) → length r < length s.
Proof.
  remember (length s) as n eqn:Hn. revert s str r Hn.
  induction (lt_wf n) as [n _ IH]. intros s str r -> H.
  destruct s as [|c t]; [discriminate|]. cbn [parse_chars] in H.
  destruct (c =? 34)%N; [injection H as <- <-; simpl; lia|].
  destruct (c =? 92)%N.
  - destruct t as [|e t']; [discriminate|].
    destruct (e =? 117)%N.
    + destruct t' as [|h1 [|h2 [|h3 [|h4 t'']]]]; try discriminate.
      destruct (hex4 h1 h2 h3 h4); [|discriminate].
      apply prepend_Some in H as [str' H].
      apply (IH (length t'') ltac:(simpl; lia) _ _ _ eq_refl) in H. simpl. lia.
    + destruct (unescape e); [|discriminate].
      apply prepend_Some in H as [str' H].
      apply (IH (length t') ltac:(simpl; lia) _ _ _ eq_refl) in H. simpl. lia.
  - destruct (c <? 32)%N; [discriminate|].
    apply prepend_Some in H as [str' H].
    apply (IH (length t) ltac:(simpl; lia) _ _ _ eq_refl) in H. simpl. lia.
Qed.

Lemma span_digits_length (s : jsstring) :
  length (span_digits s).2 <= length s.
Proof.
  induction s as [|c s IH]; simpl; [lia|].
  destruct (is_digit c); [|simpl; lia]. destruct (span_digits s). simpl in *. lia.
Qed.

Lemma lex_int_shrinks (s tok r : jsstring) :
  lex_int s = Some (tok, r) → length r < length s.
Proof.
  destruct s as [|c s]; [discriminate|]. simpl.
  destruct (c =? 48)%N; [intros [= _ <-]; lia|].
  destruct (is_digit c); [|discriminate].
  pose proof (span_digits_length s). destruct (span_digits s).
  intros [= _ <-]. simpl in *. lia.
Qed.

Lemma lex_frac_length (s tok r : jsstring) :
  lex_frac s = Some (tok, r) → length r <= length s.
Proof.
  destruct s as [|c s]; simpl; [intros [= _ <-]; simpl; lia|].
  destruct (c =? 46)%N; [|intros [= _ <-]; simpl; lia].
  pose proof (span_digits_length s). destruct (span_digits s) as [[|d ds] r']; [discriminate|].
  intros [= _ <-]. simpl in *. lia.
Qed.

Lemma lex_exp_length (s tok r : jsstring) :
  lex_exp s = Some (tok, r) → length r <= length s.
Proof.
  destruct s as [|c s]; simpl; [intros [= _ <-]; simpl; lia|].
  destruct ((c =? 101)%N || (c =? 69)%N); [|intros [= _ <-]; simpl; lia].
  destruct s as [|sg s]; [discriminate|].
  destruct ((sg =? 43)%N || (sg =? 45)%N).
  - pose proof (span_digits_length s). destruct (span_digits s) as [[|d ds] r']; [discriminate|].
    intros [= _ <-]. simpl in *. lia.
  - pose proof (span_digits_length (sg :: s)).
    destruct (span_digits (sg :: s)) as [[|d ds] r']; [discriminate|].
    intros [= _ <-]. simpl in *. lia.
Qed.

Lemma lex_unsigned_shrinks (s tok r : jsstring) :
  lex_unsigned s = Some (tok, r) → length r < length s.
Proof.
  unfold lex_unsigned.
  destruct (lex_int s) as [[i r1]|] eqn:Ei; [|discriminate].
  destruct (lex_frac r1) as [[f r2]|] eqn:Ef; [|discriminate].
  destruct (lex_exp r2) as [[e r3]|] eqn:Ee; [|discriminate].
  intros [= _ <-].
  apply lex_int_shrinks in Ei. apply lex_frac_length in Ef. apply lex_exp_length in Ee. lia.
Qed.

Lemma lex_number_shrinks (s tok r : jsstring) :
  lex_number s = Some (tok, r) → length r < length s.
Proof.
  destruct s as [|c s]; [discriminate|]. cbn [lex_number].
  destruct (c =? 45)%N.
  - destruct (lex_unsigned s) as [[tok' r']|] eqn:E; [|discriminate].
    intros [= _ <-]. apply lex_unsigned_shrinks in E. simpl. lia.
  - apply lex_unsigned_shrinks.
Qed.

Section Fuel.
Context `{rt : Runtime}.

Lemma expect_shrinks (word s : jsstring) (v v' : JsValue) (r : jsstring) :
  expect word s v = Parsed v' r → length r <= length s.
Proof.
  unfold expect. destruct (startsWith s word); [|discriminate].
  intros [= _ <-]. rewrite length_drop. lia.
Qed.

Lemma expect_not_Exhausted (word s : jsstring) (v : JsValue) : expect word s v ≠ Exhausted.
Proof. unfold expect. destruct (startsWith s word); discriminate. Qed.

Lemma parse_shrinks (fuel : nat) :
  (∀ s v r, parse_value fuel s = Parsed v r → length r < length s) ∧
  (∀ s vs r, parse_elements fuel s = Parsed vs r → length r < length s) ∧
  (∀ s ms r, parse_members fuel s = Parsed ms r → length r < length s).
Proof.
  induction fuel as [|fuel (IHv & IHe & IHm)]; [repeat split; discriminate|].
  repeat split.
  - intros [|c t] v r; [discriminate|]. cbn [parse_value].
    destruct (c =? 110)%N; [intros H; apply expect_shrinks in H; simpl; lia|].
    destruct (c =? 116)%N; [intros H; apply expect_shrinks in H; simpl; lia|].
    destruct (c =? 102)%N; [intros H; apply expect_shrinks in H; simpl; lia|].
    destruct (c =? 34)%N.
    { destruct (parse_chars t) as [[str rest]|] eqn:E; [|discriminate].
      intros [= _ <-]. apply parse_chars_shrinks in E. simpl. lia. }
    destruct (c =? 91)%N.
    { pose proof (skip_ws_length t) as Hws.
      destruct (skip_ws t) as [|c' t']; [discriminate|].
      destruct (c' =? 93)%N; [intros [= _ <-]; simpl in *; lia|].
      destruct (parse_elements fuel (c' :: t')) as [xs rest| |] eqn:E; try discriminate.
      intros [= _ <-]. apply IHe in E. simpl in *. lia. }
    destruct (c =? 123)%N.
    { pose proof (skip_ws_length t) as Hws.
      destruct (skip_ws t) as [|c' t']; [discriminate|].
      destruct (c' =? 125)%N; [intros [= _ <-]; simpl in *; lia|].
      destruct (parse_members fuel (c' :: t')) as [ms rest| |] eqn:E; try discriminate.
      intros [= _ <-]. apply IHm in E. simpl in *. lia. }
    destruct (lex_number (c :: t)) as [[tok rest]|] eqn:E; [|discriminate].
    intros [= _ <-]. apply lex_number_shrinks in E. exact E.
  - intros s vs r. rewrite parse_elements_S.
    destruct (parse_value fuel s) as [v rest| |] eqn:E; try discriminate.
    apply IHv in E. pose proof (skip_ws_length rest) as Hws.
    destruct (skip_ws rest) as [|c t]; [discriminate|].
    destruct (c =? 44)%N.
    { pose proof (skip_ws_length t) as Hws'.
      destruct (parse_elements fuel (skip_ws t)) as [vs' rest'| |] eqn:E'; try discriminate.
      intros [= _ <-]. apply IHe in E'. simpl in *. lia. }
    destruct (c =? 93)%N; [|discriminate]. intros [= _ <-]. simpl in *. lia.
  - intros [|c t] ms r; [discriminate|]. cbn [parse_members].
    destruct (c =? 34)%N; [|discriminate].
    destruct (parse_chars t) as [[key rest]|] eqn:Ek; [|discriminate].
    apply parse_chars_shrinks in Ek. pose proof (skip_ws_length rest) as Hws.
    destruct (skip_ws rest) as [|c1 t1]; [discriminate|].
    destruct (c1 =? 58)%N; [|discriminate].
    pose proof (skip_ws_length t1) as Hws1.
    destruct (parse_value fuel (skip_ws t1)) as [v rest2| |] eqn:Ev; try discriminate.
    apply IHv in Ev. pose proof (skip_ws_length rest2) as Hws2.
    destruct (skip_ws rest2) as [|c2 t2]; [discriminate|].
    destruct (c2 =? 44)%N.
    { pose proof (skip_ws_length t2) as Hws3.
      destruct (parse_members fuel (skip_ws t2)) as [ms' rest'| |] eqn:Em; try discriminate.
      intros [= _ <-]. apply IHm in Em. simpl in *. lia. }
    destruct (c2 =? 125)%N; [|discriminate]. intros [= _ <-]. simpl in *. lia.
Qed.

Lemma parse_not_Exhausted (fuel : nat) :
  (∀ s, 2 * length s < fuel → parse_value fuel s ≠ Exhausted) ∧
  (∀ s, 2 * length s + 1 < fuel → parse_elements fuel s ≠ Exhausted) ∧
  (∀ s, 2 * length s + 1 < fuel → parse_members fuel s ≠ Exhausted).
Proof.
  induction fuel as [|fuel (IHv & IHe & IHm)]; [repeat split; intros; lia|].
  destruct (parse_shrinks fuel) as (Sv & Se & Sm).
  repeat split.
  - intros [|c t] Hf; [discriminate|]. cbn [parse_value].
    destruct (c =? 110)%N; [apply expect_not_Exhausted|].
    destruct (c =? 116)%N; [apply expect_not_Exhausted|].
    destruct (c =? 102)%N; [apply expect_not_Exhausted|].
    destruct (c =? 34)%N; [destruct (parse_chars t) as [[? ?]|]; discriminate|].
    destruct (c =? 91)%N.
    { pose proof (skip_ws_length t) as Hws.
      destruct (skip_ws t) as [|c' t']; [discriminate|].
      destruct (c' =? 93)%N; [discriminate|].
      specialize (IHe (c' :: t') ltac:(simpl in *; lia)).
      destruct (parse_elements fuel (c' :: t')); [discriminate|discriminate|contradiction]. }
    destruct (c =? 123)%N.
    { pose proof (skip_ws_length t) as Hws.
      destruct (skip_ws t) as [|c' t']; [discriminate|].
      destruct (c' =? 125)%N; [discriminate|].
      specialize (IHm (c' :: t') ltac:(simpl in *; lia)).
      destruct (parse_members fuel (c' :: t')); [discriminate|discriminate|contradiction]. }
    destruct (lex_number (c :: t)) as [[? ?]|]; discriminate.
  - intros s Hf. rewrite parse_elements_S.
    specialize (IHv s ltac:(lia)).
    destruct (parse_value fuel s) as [v rest| |] eqn:E; [|discriminate|contradiction].
    apply Sv in E. pose proof (skip_ws_length rest) as Hws.
    destruct (skip_ws rest) as [|c t]; [discriminate|].
    destruct (c =? 44)%N.
    { pose proof (skip_ws_length t) as Hws'.
      specialize (IHe (skip_ws t) ltac:(simpl in *; lia)).
      destruct (parse_elements fuel (skip_ws t)); [discriminate|discriminate|contradiction]. }
    destruct (c =? 93)%N; discriminate.
  - intros [|c t] Hf; [discriminate|]. cbn [parse_members].
    destruct (c =? 34)%N; [|discriminate].
    destruct (parse_chars t) as [[key rest]|] eqn:Ek; [|discriminate].
    apply parse_chars_shrinks in Ek. pose proof (skip_ws_length rest) as Hws.
    destruct (skip_ws rest) as [|c1 t1]; [discriminate|].
    destruct (c1 =? 58)%N; [|discriminate].
    pose proof (skip_ws_length t1) as Hws1.
    specialize (IHv (skip_ws t1) ltac:(simpl in *; lia)).
    destruct (parse_value fuel (skip_ws t1)) as [v rest2| |] eqn:Ev; [|discriminate|contradiction].
    apply Sv in Ev. pose proof (skip_ws_length rest2) as Hws2.
    destruct (skip_ws rest2) as [|c2 t2]; [discriminate|].
    destruct (c2 =? 44)%N.
    { pose proof (skip_ws_length t2) as Hws3.
      specialize (IHm (skip_ws t2) ltac:(simpl in *; lia)).
      destruct (parse_members fuel (skip_ws t2)); [discriminate|discriminate|contradiction]. }
    destruct (c2 =? 125)%N; discriminate.
Qed.

(** [JSON_parse_text] gives its parser enough fuel for any text: a text it
    rejects is rejected for its syntax. *)
Lemma JSON_parse_text_fuel (text : jsstring) :
  parse_value (2 * length text + 1) (skip_ws text) ≠ Exhausted.
Proof.
  apply parse_not_Exhausted. pose proof (skip_ws_length text). lia.
Qed.

End Fuel.

(** ** Messages *)

Lemma includes_app_r (before rest needle : jsstring) :
  includes rest needle = true → includes (before ++ rest) needle = true.
Proof.
  intros H. induction before as [|c before IH]; simpl; [exact H|].
  rewrite IH. apply orb_true_r.
Qed.

Lemma includes_refl (needle : jsstring) : includes needle needle = true.
Proof. rewrite <- (app_nil_r needle) at 1. apply includes_prefix. Qed.

(** Finds a part of a concatenation. *)
Ltac find_part :=
  lazymatch goal with
  | |- includes (?a ++ ?rest) ?n = true =>
    first [ constr_eq a n; exact (includes_prefix n rest)
          | apply (includes_app_r a rest n); find_part ]
  | |- includes ?a ?n = true => constr_eq a n; exact (includes_refl n)
  end.

Section Messages.
Context `{rt : Runtime}.
Import Utils.

Lemma error_object_serializable (msg : jsstring) : json_serializable (error_object msg) = true.
Proof. reflexivity. Qed.

Lemma error_message_error_response (code : Z) (msg : jsstring) :
  error_message (error_response code msg) = Some msg.
Proof.
  destruct (JSON_parse_stringify (error_object msg) (error_object_serializable msg))
    as (text & Etext & Eparse).
  unfold error_message, error_response. cbn [body]. rewrite Etext, Eparse. reflexivity.
Qed.

End Messages.

(** ** Running programs *)

Section Running.
Context `{rt : Runtime}.

Lemma run_bind {A B : Type} (w : World) (p : Prog A) (f : A → Prog B) :
  run w (bind p f) =
  match run w p with
  | Normal a => run w (f a)
  | Abrupt e => Abrupt e
  end.
Proof. induction p as [a|e|X ev k IH]; simpl; [reflexivity..|apply IH]. Qed.

Lemma run_try_catch {A : Type} (w : World) (p : Prog A) (h : JsError → Prog A) :
  run w (try_catch p h) =
  match run w p with
  | Normal a => Normal a
  | Abrupt e => run w (h e)
  end.
Proof. induction p as [a|e|X ev k IH]; simpl; [reflexivity..|apply IH]. Qed.

End Running.

(** ** utils.js: validation *)

Section UtilsProperties.
Context `{rt : Runtime}.
Import Utils.

Lemma validateTextLength_string (s : jsstring) (maxLength : Z) (fieldName : jsstring) :
  validateTextLength (JString s) maxLength fieldName =
  if bool_decide (s = []) then
    Invalid (error_response 400 (fieldName ++ js " 不得為空且必須是字符串。"))
  else if (Z.of_nat (length s) >? maxLength)%Z then
    Invalid (error_response 400
               (fieldName ++ js " 超過最大長度 " ++ Z_toString maxLength
                ++ js " 字符（當前: " ++ Z_toString (Z.of_nat (length s)) ++ js "）。"))
  else Valid.
Proof. destruct s; reflexivity. Qed.

Lemma validateTextLength_Valid (text : JsValue) (maxLength : Z) (fieldName : jsstring) :
  validateTextLength text maxLength fieldName = Valid ↔
  ∃ s, text = JString s ∧ (1 <= Z.of_nat (length s) <= maxLength)%Z.
Proof.
  split.
  - destruct text as [| |b|n|s|xs|ps];
      try (unfold validateTextLength; cbn [is_string negb]; rewrite orb_true_r; discriminate).
    rewrite validateTextLength_string. intros H. exists s. split; [reflexivity|].
    case_bool_decide; [discriminate|].
    destruct (Z.gtb_spec (Z.of_nat (length s)) maxLength); [discriminate|].
    destruct s; [congruence|]. cbn [length] in *. lia.
  - intros (s & -> & Hlen). rewrite validateTextLength_string.
    case_bool_decide; [subst s; simpl in Hlen; lia|].
    destruct (Z.gtb_spec (Z.of_nat (length s)) maxLength); [lia|reflexivity].
Qed.

(** C1: [validateTextLength] succeeds exactly on a string whose length is
    from 1 to [maxLength]; each failure is a 400 whose message contains the
    field name, and a failure for length also contains [maxLength] and the
    length found; a string of [maxLength] code units passes and one of
    [maxLength + 1] fails. *)
Theorem validateTextLength_spec (text : JsValue) (maxLength : Z) (fieldName : jsstring) :
  (0 < maxLength)%Z →
  (validateTextLength text maxLength fieldName = Valid ↔
   ∃ s, text = JString s ∧ (1 <= Z.of_nat (length s) <= maxLength)%Z) ∧
  (∀ error, validateTextLength text maxLength fieldName = Invalid error →
     statusCode error = 400%Z ∧
     ∃ msg, error_message error = Some msg ∧ includes msg fieldName = true ∧
       ∀ s, text = JString s → (maxLength < Z.of_nat (length s))%Z →
         includes msg (Z_toString maxLength) = true ∧
         includes msg (Z_toString (Z.of_nat (length s))) = true) ∧
  (∀ s, Z.of_nat (length s) = maxLength →
     validateTextLength (JString s) maxLength fieldName = Valid) ∧
  (∀ s, Z.of_nat (length s) = (maxLength + 1)%Z →
     ∃ error, validateTextLength (JString s) maxLength fieldName = Invalid error).
Proof.
  intros Hmax. split; [apply validateTextLength_Valid|]. split; [|split].
  - intros error H.
    assert (Hbad : ∀ e, Invalid (error_response 400 (fieldName ++ js " 不得為空且必須是字符串。"))
                        = Invalid e →
              (∀ s, text = JString s → ¬ (maxLength < Z.of_nat (length s))%Z) →
              statusCode e = 400%Z ∧
              ∃ msg, error_message e = Some msg ∧ includes msg fieldName = true ∧
                ∀ s, text = JString s → (maxLength < Z.of_nat (length s))%Z →
                  includes msg (Z_toString maxLength) = true ∧
                  includes msg (Z_toString (Z.of_nat (length s))) = true).
    { intros e [= <-] Hno. split; [reflexivity|]. eexists.
      split; [apply error_message_error_response|]. split; [find_part|].
      intros s Hs Hlen. destruct (Hno s Hs Hlen). }
    destruct text as [| |b|n|s|xs|ps];
      try (apply Hbad; [|intros ? [=]]; rewrite <- H; unfold validateTextLength;
           cbn [is_string negb]; rewrite orb_true_r; reflexivity).
    rewrite validateTextLength_string in H. case_bool_decide as Hs.
    + apply Hbad; [exact H|]. intros s' [= <-]. subst s. simpl. lia.
    + destruct (Z.gtb_spec (Z.of_nat (length s)) maxLength); [|discriminate].
      assert (E : error = error_response 400
                 (fieldName ++ js " 超過最大長度 " ++ Z_toString maxLength
                  ++ js " 字符（當前: " ++ Z_toString (Z.of_nat (length s)) ++ js "）。"))
        by congruence.
      subst error. split; [reflexivity|]. eexists.
      split; [apply error_message_error_response|]. split; [find_part|].
      intros s' [= <-] _. split; find_part.
  - intros s Hs. apply validateTextLength_Valid. exists s. split; [reflexivity|]. lia.
  - intros s Hs. rewrite validateTextLength_string.
    case_bool_decide; [subst s; simpl in Hs; lia|].
    destruct (Z.gtb_spec (Z.of_nat (length s)) maxLength); [eauto|lia].
Qed.

(** C2 (as amended): a string that is not empty and no longer than
    [maxLength] is accepted; the result is the bare [{ valid: true }], which
    carries no value. *)
Theorem validateTextLength_accepts (s : jsstring) (maxLength : Z) (fieldName : jsstring) :
  s ≠ [] → (Z.of_nat (length s) <= maxLength)%Z →
  validateTextLength (JString s) maxLength fieldName = Valid.
Proof.
  intros Hs Hlen. apply validateTextLength_Valid. exists s. split; [reflexivity|].
  destruct s; [congruence|]. cbn [length] in *. lia.
Qed.

(** C7: [validateApiKey] fails exactly when GEMINI_API_KEY is not set or is
    empty, with a 500 whose message names the API key; otherwise it succeeds
    and carries the key read from the environment. *)
Theorem validateApiKey_spec (env : gmap jsstring jsstring) :
  ((∃ error, validateApiKey env = ApiKeyFail error) ↔
   (env !! js "GEMINI_API_KEY" = None ∨ env !! js "GEMINI_API_KEY" = Some [])) ∧
  (∀ error, validateApiKey env = ApiKeyFail error →
     statusCode error = 500%Z ∧
     ∃ msg, error_message error = Some msg ∧ includes msg (js "API 金鑰") = true) ∧
  (∀ apiKey, env !! js "GEMINI_API_KEY" = Some apiKey → apiKey ≠ [] →
     validateApiKey env = ApiKeyOk apiKey).
Proof.
  unfold validateApiKey.
  destruct (env !! js "GEMINI_API_KEY") as [[|c apiKey]|] eqn:E.
  - split; [split; eauto|]. split; [|intros ? [= <-] ?; congruence].
    intros error [= <-]. split; [reflexivity|]. eexists.
    split; [apply error_message_error_response|]. reflexivity.
  - split; [split; [intros [? [=]]|intros [[=]|[=]]]|]. split; [intros ? [=]|].
    intros ? [= <-] _. reflexivity.
  - split; [split; eauto|]. split; [|intros ? [=]].
    intros error [= <-]. split; [reflexivity|]. eexists.
    split; [apply error_message_error_response|]. reflexivity.
Qed.

End UtilsProperties.

(** ** utils.js: the API call *)

Section CallProperties.
Context `{rt : Runtime}.
Import Utils.

Lemma run_callGoogleAPI (w : World) (url : jsstring) (payload : JsValue) (timeout : Z) :
  run w (callGoogleAPI url payload timeout) =
  Normal
    match await_fetch (w _ (fetch url (post_json payload) timeout)) with
    | Resolved response =>
      if negb (res_ok response) then
        match res_text response with
        | Resolved errorText =>
          ApiFail (error_response (res_status response)
                     (js "Google API 錯誤 (" ++ Z_toString (res_status response)
                      ++ js "): " ++ errorText))
        | Rejected error => on_fetch_error timeout error
        end
      else
        match res_json response with
        | Resolved data => ApiOk data
        | Rejected jsonError =>
          ApiFail (error_response 500
                     (js "無法解析 Google API 響應: " ++ message jsonError))
        end
    | Rejected error => on_fetch_error timeout error
    end.
Proof.
  unfold callGoogleAPI. cbn [bind trigger run].
  destruct (await_fetch _) as [response|error]; [|reflexivity].
  destruct (negb (res_ok response)).
  - destruct (res_text response); reflexivity.
  - destruct (res_json response); reflexivity.
Qed.

(** [callGoogleAPI] sends one request and no other, whatever comes of it. *)
Lemma requests_callGoogleAPI (w : World) (url : jsstring) (payload : JsValue) (timeout : Z) :
  requests w (callGoogleAPI url payload timeout) = [(url, post_json payload, timeout)].
Proof.
  unfold callGoogleAPI. cbn [bind trigger requests]. f_equal.
  destruct (await_fetch _) as [response|error]; [|reflexivity].
  destruct (negb (res_ok response)).
  - destruct (res_text response); reflexivity.
  - destruct (res_json response); reflexivity.
Qed.

(** C5: when the timer fires before the request settles, [callGoogleAPI]
    fails with a 504 whose message contains the timeout it was given. *)
Theorem callGoogleAPI_timeout (w : World) (url : jsstring) (payload : JsValue) (timeout : Z) :
  w _ (fetch url (post_json payload) timeout) = TimerFired →
  ∃ error msg,
    run w (callGoogleAPI url payload timeout) = Normal (ApiFail error) ∧
    statusCode error = 504%Z ∧
    error_message error = Some msg ∧
    includes msg (Z_toString timeout) = true.
Proof.
  intros Hw. rewrite run_callGoogleAPI, Hw. cbn [await_fetch].
  eexists. eexists. split; [reflexivity|]. split; [reflexivity|].
  split; [apply error_message_error_response|]. find_part.
Qed.

(** C6: a response whose status is outside 200..299 makes [callGoogleAPI]
    fail with that very status, and a message that contains the status and
    the text of the response body. *)
Theorem callGoogleAPI_http_error (w : World) (url : jsstring) (payload : JsValue)
    (timeout : Z) (response : FetchResponse) (errorText : jsstring) :
  w _ (fetch url (post_json payload) timeout) = FetchSettled (Resolved response) →
  (res_status response < 200 ∨ 300 <= res_status response)%Z →
  res_text response = Resolved errorText →
  ∃ error msg,
    run w (callGoogleAPI url payload timeout) = Normal (ApiFail error) ∧
    statusCode error = res_status response ∧
    error_message error = Some msg ∧
    includes msg (Z_toString (res_status response)) = true ∧
    includes msg errorText = true.
Proof.
  intros Hw Hstatus Htext. rewrite run_callGoogleAPI, Hw. cbn [await_fetch].
  replace (res_ok response) with false by (unfold res_ok; lia).
  cbn [negb]. rewrite Htext.
  eexists. eexists. split; [reflexivity|]. split; [reflexivity|].
  split; [apply error_message_error_response|]. split; find_part.
Qed.

End CallProperties.

(** ** The handlers *)

Section HandlerProperties.
Context `{rt : Runtime}.
Import Utils.

Lemma destructure_object (data : JsValue) (first : jsstring) :
  data ≠ JNull → data ≠ JUndefined → destructure data first = Ret tt.
Proof. destruct data; congruence || reflexivity. Qed.

(** C8: in both handlers each validation step yields a tagged result, and
    the error of the first step that fails is the handler's response as it
    is, the handler doing nothing further (no request, no log). *)
Theorem handlers_short_circuit (env : gmap jsstring jsstring) (event : HandlerEvent) :
  (* every step returns one of its two tags *)
  ((∃ apiKey, validateApiKey env = ApiKeyOk apiKey) ∨
   (∃ error, validateApiKey env = ApiKeyFail error)) ∧
  ((∃ data, parseRequestBody (body_value event) = BodyOk data) ∨
   (∃ error, parseRequestBody (body_value event) = BodyFail error)) ∧
  (∀ text maxLength fieldName,
     validateTextLength text maxLength fieldName = Valid ∨
     ∃ error, validateTextLength text maxLength fieldName = Invalid error) ∧
  (* the credential check fails *)
  (∀ error, validateApiKey env = ApiKeyFail error →
     GenerateAudio.handler env event = Ret error ∧
     GenerateText.handler env event = Ret error) ∧
  (* the body does not parse *)
  (∀ apiKey error,
     validateApiKey env = ApiKeyOk apiKey →
     parseRequestBody (body_value event) = BodyFail error →
     GenerateAudio.handler env event = Ret error ∧
     GenerateText.handler env event = Ret error) ∧
  (* a field of the parsed object fails the length check *)
  (∀ apiKey data error,
     validateApiKey env = ApiKeyOk apiKey →
     parseRequestBody (body_value event) = BodyOk data →
     data ≠ JNull → data ≠ JUndefined →
     (validateTextLength (GetV data (js "text")) GenerateAudio.MAX_TEXT_LENGTH (js "text")
      = Invalid error →
      GenerateAudio.handler env event = Ret error) ∧
     (validateTextLength (GetV data (js "prompt")) GenerateText.MAX_PROMPT_LENGTH (js "prompt")
      = Invalid error →
      GenerateText.handler env event = Ret error) ∧
     (validateTextLength (GetV data (js "prompt")) GenerateText.MAX_PROMPT_LENGTH (js "prompt")
      = Valid →
      ToBoolean (GetV data (js "systemInstruction")) = true →
      validateTextLength (GetV data (js "systemInstruction")) GenerateText.MAX_PROMPT_LENGTH
        (js "systemInstruction") = Invalid error →
      GenerateText.handler env event = Ret error)).
Proof.
  split; [destruct (validateApiKey env); eauto|].
  split; [destruct (parseRequestBody (body_value event)); eauto|].
  split; [intros text maxLength fieldName;
          destruct (validateTextLength text maxLength fieldName); eauto|].
  unfold GenerateAudio.handler, GenerateText.handler.
  split; [|split].
  - intros error ->. split; reflexivity.
  - intros apiKey error -> ->. split; reflexivity.
  - intros apiKey data error -> -> Hnull Hundef.
    rewrite !destructure_object by assumption. cbn [bind].
    split; [|split].
    + intros ->. reflexivity.
    + intros ->. reflexivity.
    + intros -> -> ->. reflexivity.
Qed.

Lemma audio_check (data : JsValue) :
  negb (ToBoolean (GenerateAudio.audioData data))
  || negb (ToBoolean (GetV (GenerateAudio.audioData data) (js "data")))
  = negb (ToBoolean (GenerateAudio.inline_audio data)).
Proof.
  unfold GenerateAudio.inline_audio.
  destruct (GenerateAudio.audioData data) as [| |[|]|n|[|c s]|xs|ps]; try reflexivity.
  simpl. destruct (Number_toBoolean n); reflexivity.
Qed.

Lemma run_after_call (w : World) (data : JsValue) :
  run w (GenerateAudio.after_call data) =
  Normal (if ToBoolean (GenerateAudio.inline_audio data)
          then createSuccessResponse data
          else GenerateAudio.missing_audio_response).
Proof.
  unfold GenerateAudio.after_call. rewrite audio_check.
  destruct (ToBoolean (GenerateAudio.inline_audio data)); reflexivity.
Qed.

Lemma OptionalGet_name (v : JsValue) (k : jsstring) :
  array_index k = None → OptionalGet v k = default JUndefined (json_member v k).
Proof.
  intros Hk. destruct v as [| |b|n|s|xs|ps]; try reflexivity.
  - cbn [OptionalGet GetV]. rewrite Hk. reflexivity.
  - cbn [OptionalGet GetV json_member]. rewrite Hk. reflexivity.
Qed.

Lemma OptionalGet_then_name (v : JsValue) (k k' : jsstring) :
  array_index k' = None →
  OptionalGet (OptionalGet v k) k'
  = default JUndefined
      (match json_member v k with
       | Some v' => json_member v' k'
       | None => None
       end).
Proof.
  intros Hk'. destruct v as [| |b|n|s|xs|ps]; try reflexivity.
  - cbn [OptionalGet GetV json_member]. destruct (array_index k) as [i|]; [|reflexivity].
    destruct (s !! N.to_nat i) as [c|]; [|reflexivity].
    cbn [OptionalGet GetV]. rewrite Hk'. reflexivity.
  - cbn [OptionalGet GetV json_member]. destruct (array_index k) as [i|]; [|reflexivity].
    destruct (xs !! N.to_nat i) as [v'|]; [|reflexivity].
    apply OptionalGet_name, Hk'.
  - cbn [OptionalGet GetV json_member].
    destruct (lookup_property k ps) as [v'|]; [|reflexivity].
    apply OptionalGet_name, Hk'.
Qed.

(** What the audio handler reads with its optional chain is the value at
    the path candidates[0].content.parts[0].inlineData.data of the data, and
    undefined when the data has no value there. *)
Lemma inline_audio_value_at (data : JsValue) :
  GenerateAudio.inline_audio data
  = default JUndefined
      (value_at [js "candidates"; js "0"; js "content"; js "parts"; js "0";
                 js "inlineData"; js "data"] data).
Proof.
  unfold GenerateAudio.inline_audio, GenerateAudio.audioData.
  rewrite (OptionalGet_name data (js "candidates")) by reflexivity.
  cbn [value_at]. destruct (json_member data (js "candidates")) as [candidates|];
    [|reflexivity].
  cbn [default from_option id]. rewrite (OptionalGet_then_name candidates (js "0") (js "content")) by reflexivity.
  destruct (json_member candidates (js "0")) as [candidate|]; [|reflexivity].
  destruct (json_member candidate (js "content")) as [content|]; [|reflexivity].
  cbn [default from_option id]. rewrite (OptionalGet_name content (js "parts")) by reflexivity.
  destruct (json_member content (js "parts")) as [parts|]; [|reflexivity].
  cbn [default from_option id]. rewrite (OptionalGet_then_name parts (js "0") (js "inlineData")) by reflexivity.
  destruct (json_member parts (js "0")) as [part|]; [|reflexivity].
  destruct (json_member part (js "inlineData")) as [inlineData|]; [|reflexivity].
  cbn [default from_option id]. rewrite (OptionalGet_name inlineData (js "data")) by reflexivity.
  destruct (json_member inlineData (js "data")); reflexivity.
Qed.

(** C9: once the API call of the audio handler succeeded, the handler
    answers with the 500 "missing audio data" error when the API data has no
    value at the path candidates[0].content.parts[0].inlineData.data or a
    falsy one (for a string: the empty one), and with the success response
    around the API data otherwise. *)
Theorem audio_handler_checks_audio (w : World) (env : gmap jsstring jsstring)
    (event : HandlerEvent) (apiKey : jsstring) (request data : JsValue)
    (audio : option JsValue) :
  validateApiKey env = ApiKeyOk apiKey →
  parseRequestBody (body_value event) = BodyOk request →
  request ≠ JNull → request ≠ JUndefined →
  validateTextLength (GetV request (js "text")) GenerateAudio.MAX_TEXT_LENGTH (js "text")
    = Valid →
  run w (callGoogleAPI (GenerateAudio.googleTtsApiUrl apiKey)
           (GenerateAudio.payload (GetV request (js "text")))
           GenerateAudio.API_TIMEOUT) = Normal (ApiOk data) →
  value_at [js "candidates"; js "0"; js "content"; js "parts"; js "0";
            js "inlineData"; js "data"] data = audio →
  run w (GenerateAudio.handler env event) =
    Normal (match audio with
            | Some value =>
              if ToBoolean value
              then createSuccessResponse data
              else error_response 500 (js "語音生成失敗：API 未返回有效的音頻數據。")
            | None => error_response 500 (js "語音生成失敗：API 未返回有效的音頻數據。")
            end) ∧
  statusCode (error_response 500 (js "語音生成失敗：API 未返回有效的音頻數據。")) = 500%Z ∧
  error_message (error_response 500 (js "語音生成失敗：API 未返回有效的音頻數據。"))
    = Some (js "語音生成失敗：API 未返回有效的音頻數據。") ∧
  (∀ s, audio = Some (JString s) →
     (run w (GenerateAudio.handler env event) = Normal (createSuccessResponse data)
      ↔ s ≠ [])).
Proof.
  intros Hkey Hbody Hnull Hundef Hvalid Hcall Haudio.
  assert (Hrun : run w (GenerateAudio.handler env event) =
                 Normal (if ToBoolean (GenerateAudio.inline_audio data)
                         then createSuccessResponse data
                         else GenerateAudio.missing_audio_response)).
  { unfold GenerateAudio.handler. rewrite Hkey, Hbody.
    rewrite destructure_object by assumption. cbn [bind]. rewrite Hvalid.
    rewrite run_try_catch, run_bind, Hcall. rewrite run_after_call. reflexivity. }
  rewrite inline_audio_value_at, Haudio in Hrun.
  unfold GenerateAudio.missing_audio_response in Hrun.
  split; [|split; [reflexivity|split; [apply error_message_error_response|]]].
  - rewrite Hrun. destruct audio as [value|]; [|reflexivity].
    cbn [default]. reflexivity.
  - intros s ->. rewrite Hrun. cbn [default]. destruct s as [|c s]; simpl.
    + split; [discriminate|congruence].
    + split; [discriminate|reflexivity].
Qed.

Lemma parseRequestBody_null : parseRequestBody (JString (js "null")) = BodyOk JNull.
Proof. reflexivity. Qed.

(** C10: the body "null" is valid JSON and parses to null; with the
    credential set, the text handler then answers 500 with the generic
    server-error message around the TypeError of the destructuring, not a
    400. *)
Theorem text_handler_null_body (w : World) (env : gmap jsstring jsstring) (apiKey : jsstring) :
  validateApiKey env = ApiKeyOk apiKey →
  parseRequestBody (JString (js "null")) = BodyOk JNull ∧
  ∃ response,
    run w (GenerateText.handler env {| event_body := Some (js "null") |}) = Normal response ∧
    statusCode response = 500%Z ∧
    statusCode response ≠ 400%Z ∧
    error_message response
      = Some (js "伺服器錯誤: " ++ TypeError_destructure (js "prompt") (js "null")).
Proof.
  intros Hkey. split; [reflexivity|].
  unfold GenerateText.handler. rewrite Hkey.
  change (body_value {| event_body := Some (js "null") |}) with (JString (js "null")).
  rewrite parseRequestBody_null.
  eexists. split; [reflexivity|]. split; [reflexivity|]. split; [discriminate|].
  apply error_message_error_response.
Qed.

End HandlerProperties.

(** ** utils.js: request body and success response *)

Section BodyProperties.
Context `{rt : Runtime}.
Import Utils.

Lemma JSON_parse_text_Abrupt (text : jsstring) (e : JsError) :
  JSON_parse_text text = Abrupt e → e = SyntaxError text.
Proof.
  unfold JSON_parse_text.
  destruct (parse_value _ _) as [v rest| |]; [destruct (skip_ws rest)|..]; congruence.
Qed.

Lemma parseRequestBody_string (text : jsstring) :
  text ≠ [] →
  parseRequestBody (JString text) =
  match JSON_parse_text text with
  | Normal data => BodyOk data
  | Abrupt parseError =>
    BodyFail (error_response 400 (js "JSON 解析失敗: " ++ message parseError))
  end.
Proof. destruct text; [congruence|reflexivity]. Qed.

(** C3: [parseRequestBody] fails with a 400 on null, on the empty string
    and on every other falsy value; on a string that is not empty and is not
    valid JSON it fails with a 400 whose message contains the parser's own
    message; on valid JSON it succeeds with exactly what [JSON.parse]
    returns. *)
Theorem parseRequestBody_spec :
  (∀ body, ToBoolean body = false →
     ∃ error, parseRequestBody body = BodyFail error ∧ statusCode error = 400%Z ∧
              error_message error = Some (js "請求體不得為空。")) ∧
  (ToBoolean JNull = false ∧ ToBoolean (JString []) = false ∧ ToBoolean JUndefined = false) ∧
  (∀ text parseError, text ≠ [] → JSON_parse_text text = Abrupt parseError →
     message parseError = SyntaxError_message text ∧
     ∃ error msg,
       parseRequestBody (JString text) = BodyFail error ∧
       statusCode error = 400%Z ∧
       error_message error = Some msg ∧
       includes msg (SyntaxError_message text) = true) ∧
  (∀ text data, JSON_parse_text text = Normal data →
     parseRequestBody (JString text) = BodyOk data).
Proof.
  split; [|split; [|split]].
  - intros body Hfalsy. unfold parseRequestBody. rewrite Hfalsy. cbn [negb].
    eexists. split; [reflexivity|]. split; [reflexivity|].
    apply error_message_error_response.
  - repeat split.
  - intros text parseError Htext Hparse.
    pose proof (JSON_parse_text_Abrupt _ _ Hparse) as ->.
    split; [reflexivity|].
    rewrite (parseRequestBody_string _ Htext), Hparse.
    eexists. eexists. split; [reflexivity|]. split; [reflexivity|].
    split; [apply error_message_error_response|]. cbn [message SyntaxError]. find_part.
  - intros text data Hparse.
    assert (Htext : text ≠ []) by (intros ->; discriminate).
    rewrite (parseRequestBody_string _ Htext), Hparse. reflexivity.
Qed.

(** C4: for data that JSON represents exactly, [createSuccessResponse]
    gives status 200, the two fixed headers and nothing else, and a body that
    [JSON.parse] reads back as the data itself. *)
Theorem createSuccessResponse_spec (data : JsValue) :
  json_serializable data = true →
  statusCode (createSuccessResponse data) = 200%Z ∧
  headers (createSuccessResponse data)
    = Some [(js "Content-Type", js "application/json");
            (js "Cache-Control", js "no-cache, no-store, must-revalidate")] ∧
  ∃ text, body (createSuccessResponse data) = Some text ∧
          JSON_parse_text text = Normal data.
Proof.
  intros Hdata. split; [reflexivity|]. split; [reflexivity|].
  apply JSON_parse_stringify. exact Hdata.
Qed.

End BodyProperties.

(** ** More of utils.js: the API call *)

Section MoreOfTheCall.
Context `{rt : Runtime}.
Import Utils.

(** X1: a response with a status from 200 to 299 whose body is JSON is
    handed back as the parsed data, whatever its shape. *)
Theorem callGoogleAPI_success (w : World) (url : jsstring) (payload : JsValue)
    (timeout : Z) (response : FetchResponse) (data : JsValue) :
  w _ (fetch url (post_json payload) timeout) = FetchSettled (Resolved response) →
  (200 <= res_status response < 300)%Z →
  res_json response = Resolved data →
  run w (callGoogleAPI url payload timeout) = Normal (ApiOk data).
Proof.
  intros Hw Hstatus Hjson. rewrite run_callGoogleAPI, Hw. cbn [await_fetch].
  replace (res_ok response) with true by (unfold res_ok; lia).
  cbn [negb]. rewrite Hjson. reflexivity.
Qed.

(** X2: a response with a status from 200 to 299 whose body is not JSON
    makes [callGoogleAPI] fail with a 500 whose message contains the message
    of the error [response.json()] rejected with. *)
Theorem callGoogleAPI_malformed_response (w : World) (url : jsstring) (payload : JsValue)
    (timeout : Z) (response : FetchResponse) (jsonError : JsError) :
  w _ (fetch url (post_json payload) timeout) = FetchSettled (Resolved response) →
  (200 <= res_status response < 300)%Z →
  res_json response = Rejected jsonError →
  ∃ error,
    run w (callGoogleAPI url payload timeout) = Normal (ApiFail error) ∧
    statusCode error = 500%Z ∧
    error_message error = Some (js "無法解析 Google API 響應: " ++ message jsonError).
Proof.
  intros Hw Hstatus Hjson. rewrite run_callGoogleAPI, Hw. cbn [await_fetch].
  replace (res_ok response) with true by (unfold res_ok; lia).
  cbn [negb]. rewrite Hjson.
  eexists. split; [reflexivity|]. split; [reflexivity|].
  apply error_message_error_response.
Qed.

(** X3: when the request fails for another reason than the timer (the
    promise of [fetch] rejects, or the body of an error response cannot be
    read, with an error that is not an AbortError), [callGoogleAPI] fails
    with a 500 whose message carries the error's message. *)
Theorem callGoogleAPI_network_error (w : World) (url : jsstring) (payload : JsValue)
    (timeout : Z) (error : JsError) :
  (w _ (fetch url (post_json payload) timeout) = FetchSettled (Rejected error) ∨
   ∃ response,
     w _ (fetch url (post_json payload) timeout) = FetchSettled (Resolved response) ∧
     (res_status response < 200 ∨ 300 <= res_status response)%Z ∧
     res_text response = Rejected error) →
  name error ≠ js "AbortError" →
  ∃ failure,
    run w (callGoogleAPI url payload timeout) = Normal (ApiFail failure) ∧
    statusCode failure = 500%Z ∧
    error_message failure = Some (js "網絡錯誤: " ++ message error).
Proof.
  intros Hw Hname. rewrite run_callGoogleAPI.
  assert (Hcatch : on_fetch_error timeout error
                   = ApiFail (error_response 500 (js "網絡錯誤: " ++ message error))).
  { unfold on_fetch_error. rewrite bool_decide_eq_false_2 by exact Hname. reflexivity. }
  destruct Hw as [Hw|(response & Hw & Hstatus & Htext)]; rewrite Hw; cbn [await_fetch].
  - rewrite Hcatch. eexists. split; [reflexivity|]. split; [reflexivity|].
    apply error_message_error_response.
  - replace (res_ok response) with false by (unfold res_ok; lia).
    cbn [negb]. rewrite Htext, Hcatch.
    eexists. split; [reflexivity|]. split; [reflexivity|].
    apply error_message_error_response.
Qed.


(** X5: whatever the world answers, [callGoogleAPI] sends exactly one
    request: a POST of the serialised payload with a JSON content type, under
    the timeout it was given.  It does not retry. *)
Theorem callGoogleAPI_single_request (w : World) (url : jsstring) (payload : JsValue)
    (timeout : Z) :
  requests w (callGoogleAPI url payload timeout)
  = [(url,
      {| method := js "POST";
         request_headers := [(js "Content-Type", js "application/json")];
         request_body := JSON_stringify payload |},
      timeout)].
Proof. apply requests_callGoogleAPI. Qed.

End MoreOfTheCall.

(** ** More of utils.js: validation and errors *)

Section MoreOfValidation.
Context `{rt : Runtime}.
Import Utils.

(** X6: [validateApiKey] looks at GEMINI_API_KEY and at nothing else:
    setting or removing another variable changes nothing, setting the key to
    a string that is not empty makes the check pass with that string, and
    removing the key makes it fail. *)
Theorem validateApiKey_environment (env : gmap jsstring jsstring) (k v : jsstring) :
  (k ≠ js "GEMINI_API_KEY" →
   validateApiKey (<[k := v]> env) = validateApiKey env ∧
   validateApiKey (delete k env) = validateApiKey env) ∧
  (v ≠ [] → validateApiKey (<[js "GEMINI_API_KEY" := v]> env) = ApiKeyOk v) ∧
  (∃ error, validateApiKey (delete (js "GEMINI_API_KEY") env) = ApiKeyFail error
            ∧ statusCode error = 500%Z).
Proof.
  unfold validateApiKey. split; [|split].
  - intros Hk. rewrite lookup_insert_ne, lookup_delete_ne by exact Hk. split; reflexivity.
  - intros Hv. rewrite lookup_insert_eq. destruct v; [congruence|reflexivity].
  - rewrite lookup_delete_eq. eexists. split; reflexivity.
Qed.

(** X7: whether [validateTextLength] accepts a value does not depend on the
    field name, and a value accepted under a bound is accepted under every
    larger bound. *)
Theorem validateTextLength_monotone (text : JsValue) (maxLength maxLength' : Z)
    (fieldName fieldName' : jsstring) :
  (maxLength <= maxLength')%Z →
  validateTextLength text maxLength fieldName = Valid →
  validateTextLength text maxLength' fieldName' = Valid.
Proof.
  intros Hle H. apply validateTextLength_Valid in H as (s & -> & Hlen).
  apply validateTextLength_Valid. exists s. split; [reflexivity|lia].
Qed.

Lemma skip_ws_all (text : jsstring) : forallb is_ws text = true → skip_ws text = [].
Proof.
  induction text as [|c text IH]; [reflexivity|]. simpl.
  intros H. apply andb_true_iff in H as [Hc Ht]. rewrite Hc. exact (IH Ht).
Qed.

(** X8: a body of white space only is not taken for an empty body: it is
    truthy, [JSON.parse] rejects it, and the answer is the 400 of a parse
    failure. *)
Theorem parseRequestBody_whitespace (text : jsstring) :
  text ≠ [] → forallb is_ws text = true →
  parseRequestBody (JString text)
  = BodyFail (error_response 400 (js "JSON 解析失敗: " ++ SyntaxError_message text)).
Proof.
  intros Htext Hws. rewrite (parseRequestBody_string _ Htext).
  unfold JSON_parse_text. rewrite (skip_ws_all _ Hws), Nat.add_1_r. reflexivity.
Qed.

(** A body that is already an object, not a string, is rejected: it is
    truthy, [JSON.parse] converts it to the text [[object Object]], which is
    not JSON, and the answer is the 400 of a parse failure. *)
Lemma parseRequestBody_object (properties : list (jsstring * JsValue)) :
  parseRequestBody (JObject properties)
  = BodyFail (error_response 400
                (js "JSON 解析失敗: " ++ SyntaxError_message (js "[object Object]"))).
Proof. reflexivity. Qed.

Lemma error_response_body (code : Z) (msg : jsstring) :
  ∃ text, body (error_response code msg) = Some text ∧
          JSON_parse_text text = Normal (error_object msg).
Proof. apply JSON_parse_stringify, error_object_serializable. Qed.

Lemma validateApiKey_error (env : gmap jsstring jsstring) (error : Response) :
  validateApiKey env = ApiKeyFail error → ∃ msg, error = error_response 500 msg.
Proof.
  unfold validateApiKey.
  destruct (env !! js "GEMINI_API_KEY") as [[|c apiKey]|]; [|discriminate|];
    intros [= <-]; eexists; reflexivity.
Qed.

Lemma parseRequestBody_error (body : JsValue) (error : Response) :
  parseRequestBody body = BodyFail error → ∃ msg, error = error_response 400 msg.
Proof.
  unfold parseRequestBody. destruct (negb (ToBoolean body)).
  - intros [= <-]; eexists; reflexivity.
  - destruct (JSON_parse body); [discriminate|]. intros [= <-]; eexists; reflexivity.
Qed.

Lemma validateTextLength_error (text : JsValue) (maxLength : Z) (fieldName : jsstring)
    (error : Response) :
  validateTextLength text maxLength fieldName = Invalid error →
  ∃ msg, error = error_response 400 msg.
Proof.
  unfold validateTextLength. destruct (negb (ToBoolean text) || negb (is_string text)).
  - intros [= <-]; eexists; reflexivity.
  - destruct (string_length text >? maxLength)%Z; [|discriminate].
    intros [= <-]; eexists; reflexivity.
Qed.

Lemma callGoogleAPI_error (w : World) (url : jsstring) (payload : JsValue) (timeout : Z)
    (error : Response) :
  run w (callGoogleAPI url payload timeout) = Normal (ApiFail error) →
  ∃ code msg, error = error_response code msg.
Proof.
  rewrite run_callGoogleAPI.
  assert (Hcatch : ∀ e, on_fetch_error timeout e = ApiFail error →
                        ∃ code msg, error = error_response code msg).
  { intros e. unfold on_fetch_error. case_bool_decide; intros [= <-]; eexists; eexists; reflexivity. }
  destruct (await_fetch _) as [response|e]; [|intros [= H]; exact (Hcatch _ H)].
  destruct (negb (res_ok response)).
  - destruct (res_text response) as [t|e]; [|intros [= H]; exact (Hcatch _ H)].
    intros [= <-]; eexists; eexists; reflexivity.
  - destruct (res_json response); [discriminate|].
    intros [= <-]; eexists; eexists; reflexivity.
Qed.

(** X9: every error a function of utils.js returns has the same shape: no
    headers, and a body that is JSON for an object with the single property
    [error], itself an object with the single property [message]. *)
Theorem utils_errors_are_envelopes (error : Response) :
  (∃ env, validateApiKey env = ApiKeyFail error) ∨
  (∃ body, parseRequestBody body = BodyFail error) ∨
  (∃ text maxLength fieldName, validateTextLength text maxLength fieldName = Invalid error) ∨
  (∃ w url payload timeout,
     run w (callGoogleAPI url payload timeout) = Normal (ApiFail error)) →
  headers error = None ∧
  ∃ msg text, body error = Some text ∧
              JSON_parse_text text = Normal (error_object msg) ∧
              error_message error = Some msg.
Proof.
  intros H.
  assert (Hshape : ∃ code msg, error = error_response code msg).
  { destruct H as [[env H]|[[b H]|[(text & maxLength & fieldName & H)|(w & url & p & t & H)]]].
    - destruct (validateApiKey_error _ _ H) as [msg ->]. eauto.
    - destruct (parseRequestBody_error _ _ H) as [msg ->]. eauto.
    - destruct (validateTextLength_error _ _ _ _ H) as [msg ->]. eauto.
    - exact (callGoogleAPI_error _ _ _ _ _ H). }
  destruct Hshape as (code & msg & ->). split; [reflexivity|].
  destruct (error_response_body code msg) as (text & Hbody & Hparse).
  exists msg, text. split; [exact Hbody|]. split; [exact Hparse|].
  apply error_message_error_response.
Qed.

End MoreOfValidation.

(** ** More of the handlers: running and requests *)

Section MoreRunning.
Context `{rt : Runtime}.

Lemma requests_bind {A B : Type} (w : World) (p : Prog A) (f : A → Prog B) :
  requests w (bind p f) =
  requests w p ++ match run w p with
                  | Normal a => requests w (f a)
                  | Abrupt _ => []
                  end.
Proof.
  induction p as [a|e|X ev k IH]; [reflexivity..|].
  destruct ev; cbn [bind requests run]; rewrite IH; reflexivity.
Qed.

Lemma requests_try_catch {A : Type} (w : World) (p : Prog A) (h : JsError → Prog A) :
  requests w (try_catch p h) =
  requests w p ++ match run w p with
                  | Normal _ => []
                  | Abrupt e => requests w (h e)
                  end.
Proof.
  induction p as [a|e|X ev k IH]; [reflexivity..|].
  destruct ev; cbn [try_catch requests run]; rewrite IH; reflexivity.
Qed.


Lemma requests_on_unexpected (w : World) (functionName : jsstring) (event : HandlerEvent)
    (error : JsError) :
  requests w (on_unexpected functionName event error) = [].
Proof. reflexivity. Qed.

End MoreRunning.

Section MoreOfTheHandlers.
Context `{rt : Runtime}.
Import Utils.

Lemma run_callGoogleAPI_total (w : World) (url : jsstring) (payload : JsValue) (timeout : Z) :
  ∃ result, run w (callGoogleAPI url payload timeout) = Normal result.
Proof. rewrite run_callGoogleAPI. eauto. Qed.

Lemma audio_handler_accepted (env : gmap jsstring jsstring) (event : HandlerEvent)
    (apiKey : jsstring) (text : JsValue) :
  audio_accepted env event apiKey text →
  GenerateAudio.handler env event =
  try_catch
    (let! apiResult :=
       callGoogleAPI (GenerateAudio.googleTtsApiUrl apiKey) (GenerateAudio.payload text)
         GenerateAudio.API_TIMEOUT in
     match apiResult with
     | ApiFail error =>
       do! logError (js "generate-audio") (Error (js "TTS API 調用失敗"))
             [(js "textLength", GetLength text);
              (js "voiceName", JString GenerateAudio.VOICE_NAME)] in
       Ret error
     | ApiOk data => GenerateAudio.after_call data
     end)
    (on_unexpected (js "generate-audio") event).
Proof.
  intros (Hkey & data & Hbody & Hnull & Hundef & <- & Hvalid).
  unfold GenerateAudio.handler. rewrite Hkey, Hbody.
  rewrite destructure_object by assumption. cbn [bind]. rewrite Hvalid. reflexivity.
Qed.

Lemma run_audio_accepted (w : World) (env : gmap jsstring jsstring) (event : HandlerEvent)
    (apiKey : jsstring) (text : JsValue) (result : ApiResult) :
  audio_accepted env event apiKey text →
  run w (callGoogleAPI (GenerateAudio.googleTtsApiUrl apiKey) (GenerateAudio.payload text)
           GenerateAudio.API_TIMEOUT) = Normal result →
  run w (GenerateAudio.handler env event) = Normal (audio_answer result).
Proof.
  intros Hacc Hcall. rewrite (audio_handler_accepted _ _ _ _ Hacc).
  rewrite run_try_catch, run_bind, Hcall. destruct result as [data|error].
  - rewrite run_after_call. reflexivity.
  - reflexivity.
Qed.

Lemma text_handler_accepted (env : gmap jsstring jsstring) (event : HandlerEvent)
    (apiKey : jsstring) (prompt systemInstruction : JsValue) :
  text_accepted env event apiKey prompt systemInstruction →
  GenerateText.handler env event =
  try_catch (GenerateText.call_and_respond apiKey prompt systemInstruction)
    (on_unexpected (js "generate-text") event).
Proof.
  intros (Hkey & data & Hbody & Hnull & Hundef & <- & <- & Hprompt & Hsys).
  unfold GenerateText.handler. rewrite Hkey, Hbody.
  rewrite destructure_object by assumption. cbn [bind]. rewrite Hprompt.
  destruct (ToBoolean (GetV data (js "systemInstruction"))); [|reflexivity].
  rewrite Hsys by reflexivity. reflexivity.
Qed.

Lemma text_accepted_prompt (env : gmap jsstring jsstring) (event : HandlerEvent)
    (apiKey : jsstring) (prompt systemInstruction : JsValue) :
  text_accepted env event apiKey prompt systemInstruction →
  ∃ s, prompt = JString s.
Proof.
  intros (_ & data & _ & _ & _ & _ & _ & Hprompt & _).
  apply validateTextLength_Valid in Hprompt as (s & -> & _). eauto.
Qed.

Lemma run_text_accepted (w : World) (env : gmap jsstring jsstring) (event : HandlerEvent)
    (apiKey : jsstring) (prompt systemInstruction : JsValue) (result : ApiResult) :
  text_accepted env event apiKey prompt systemInstruction →
  run w (callGoogleAPI (GenerateText.googleApiUrl apiKey)
           (GenerateText.payload prompt systemInstruction)
           GenerateText.API_TIMEOUT) = Normal result →
  run w (GenerateText.handler env event) = Normal (text_answer result).
Proof.
  intros Hacc Hcall. rewrite (text_handler_accepted _ _ _ _ _ Hacc).
  destruct (text_accepted_prompt _ _ _ _ _ Hacc) as [s ->].
  unfold GenerateText.call_and_respond.
  rewrite run_try_catch, run_bind, Hcall. destruct result as [data|error]; reflexivity.
Qed.

(** X10: when a request passed validation and the API call fails, either
    handler answers with the error of the call as it is: same status, same
    body. *)
Theorem handlers_pass_failure_through (w : World) (env : gmap jsstring jsstring)
    (event : HandlerEvent) (apiKey : jsstring) (error : Response) :
  (∀ text,
     audio_accepted env event apiKey text →
     run w (callGoogleAPI (GenerateAudio.googleTtsApiUrl apiKey) (GenerateAudio.payload text)
              GenerateAudio.API_TIMEOUT) = Normal (ApiFail error) →
     run w (GenerateAudio.handler env event) = Normal error) ∧
  (∀ prompt systemInstruction,
     text_accepted env event apiKey prompt systemInstruction →
     run w (callGoogleAPI (GenerateText.googleApiUrl apiKey)
              (GenerateText.payload prompt systemInstruction)
              GenerateText.API_TIMEOUT) = Normal (ApiFail error) →
     run w (GenerateText.handler env event) = Normal error).
Proof.
  split.
  - intros text Hacc Hcall. exact (run_audio_accepted _ _ _ _ _ _ Hacc Hcall).
  - intros prompt systemInstruction Hacc Hcall.
    exact (run_text_accepted _ _ _ _ _ _ _ Hacc Hcall).
Qed.

(** X11: when a request passed validation and the API call succeeds, the
    text handler answers with the success response around the data of the
    API, whatever that data is: it looks at no part of it. *)
Theorem text_handler_success (w : World) (env : gmap jsstring jsstring)
    (event : HandlerEvent) (apiKey : jsstring) (prompt systemInstruction data : JsValue) :
  text_accepted env event apiKey prompt systemInstruction →
  run w (callGoogleAPI (GenerateText.googleApiUrl apiKey)
           (GenerateText.payload prompt systemInstruction)
           GenerateText.API_TIMEOUT) = Normal (ApiOk data) →
  run w (GenerateText.handler env event) = Normal (createSuccessResponse data).
Proof. intros Hacc Hcall. exact (run_text_accepted _ _ _ _ _ _ _ Hacc Hcall). Qed.

End MoreOfTheHandlers.

Section HandlersAndTheCall.
Context `{rt : Runtime}.
Import Utils.

Lemma run_callGoogleAPI_timer (w : World) (url : jsstring) (payload : JsValue) (timeout : Z) :
  w _ (fetch url (post_json payload) timeout) = TimerFired →
  run w (callGoogleAPI url payload timeout)
  = Normal (ApiFail (error_response 504
                       (js "請求超時（" ++ Z_toString timeout ++ js "ms）。請稍後重試。"))).
Proof. intros Hw. rewrite run_callGoogleAPI, Hw. reflexivity. Qed.

(** X12: a request that passed validation and whose API call is cut off by
    the timer gets a 504 from either handler; the message names the
    handler's own timeout, 45000 ms for audio and 30000 ms for text. *)
Theorem handlers_timeout (w : World) (env : gmap jsstring jsstring) (event : HandlerEvent)
    (apiKey : jsstring) :
  (∀ text,
     audio_accepted env event apiKey text →
     w _ (fetch (GenerateAudio.googleTtsApiUrl apiKey)
            (post_json (GenerateAudio.payload text)) 45000) = TimerFired →
     run w (GenerateAudio.handler env event)
     = Normal (error_response 504
                 (js "請求超時（" ++ js "45000" ++ js "ms）。請稍後重試。"))) ∧
  (∀ prompt systemInstruction,
     text_accepted env event apiKey prompt systemInstruction →
     w _ (fetch (GenerateText.googleApiUrl apiKey)
            (post_json (GenerateText.payload prompt systemInstruction)) 30000) = TimerFired →
     run w (GenerateText.handler env event)
     = Normal (error_response 504
                 (js "請求超時（" ++ js "30000" ++ js "ms）。請稍後重試。"))).
Proof.
  assert (E45 : js "45000" = Z_toString 45000) by (vm_compute; reflexivity).
  assert (E30 : js "30000" = Z_toString 30000) by (vm_compute; reflexivity).
  rewrite E45, E30. split.
  - intros text Hacc Hw.
    exact (run_audio_accepted _ _ _ _ _ _ Hacc (run_callGoogleAPI_timer _ _ _ _ Hw)).
  - intros prompt systemInstruction Hacc Hw.
    exact (run_text_accepted _ _ _ _ _ _ _ Hacc (run_callGoogleAPI_timer _ _ _ _ Hw)).
Qed.

(** X13: a request that passed validation and whose API call is answered
    with a status outside 200..299 gets that status from either handler,
    with a message that contains the text of the API's answer. *)
Theorem handlers_upstream_status (w : World) (env : gmap jsstring jsstring)
    (event : HandlerEvent) (apiKey : jsstring) (response : FetchResponse)
    (errorText : jsstring) :
  (res_status response < 200 ∨ 300 <= res_status response)%Z →
  res_text response = Resolved errorText →
  (∀ text,
     audio_accepted env event apiKey text →
     w _ (fetch (GenerateAudio.googleTtsApiUrl apiKey)
            (post_json (GenerateAudio.payload text)) 45000)
     = FetchSettled (Resolved response) →
     ∃ answer msg,
       run w (GenerateAudio.handler env event) = Normal answer ∧
       statusCode answer = res_status response ∧
       error_message answer = Some msg ∧ includes msg errorText = true) ∧
  (∀ prompt systemInstruction,
     text_accepted env event apiKey prompt systemInstruction →
     w _ (fetch (GenerateText.googleApiUrl apiKey)
            (post_json (GenerateText.payload prompt systemInstruction)) 30000)
     = FetchSettled (Resolved response) →
     ∃ answer msg,
       run w (GenerateText.handler env event) = Normal answer ∧
       statusCode answer = res_status response ∧
       error_message answer = Some msg ∧ includes msg errorText = true).
Proof.
  intros Hstatus Htext.
  assert (Hcall : ∀ url payload timeout,
            w _ (fetch url (post_json payload) timeout) = FetchSettled (Resolved response) →
            run w (callGoogleAPI url payload timeout)
            = Normal (ApiFail (error_response (res_status response)
                                 (js "Google API 錯誤 (" ++ Z_toString (res_status response)
                                  ++ js "): " ++ errorText)))).
  { intros url payload timeout Hw. rewrite run_callGoogleAPI, Hw. cbn [await_fetch].
    replace (res_ok response) with false by (unfold res_ok; lia).
    cbn [negb]. rewrite Htext. reflexivity. }
  split.
  - intros text Hacc Hw. eexists. eexists.
    split; [exact (run_audio_accepted _ _ _ _ _ _ Hacc (Hcall _ _ _ Hw))|].
    split; [reflexivity|]. split; [apply error_message_error_response|]. find_part.
  - intros prompt systemInstruction Hacc Hw. eexists. eexists.
    split; [exact (run_text_accepted _ _ _ _ _ _ _ Hacc (Hcall _ _ _ Hw))|].
    split; [reflexivity|]. split; [apply error_message_error_response|]. find_part.
Qed.

End HandlersAndTheCall.

Section HandlerCases.
Context `{rt : Runtime}.
Import Utils.








Lemma requests_text_accepted (w : World) (env : gmap jsstring jsstring)
    (event : HandlerEvent) (apiKey : jsstring) (prompt systemInstruction : JsValue) :
  text_accepted env event apiKey prompt systemInstruction →
  requests w (GenerateText.handler env event)
  = [(GenerateText.googleApiUrl apiKey,
      post_json (GenerateText.payload prompt systemInstruction),
      GenerateText.API_TIMEOUT)].
Proof.
  intros Hacc. rewrite (text_handler_accepted _ _ _ _ _ Hacc).
  destruct (text_accepted_prompt _ _ _ _ _ Hacc) as [s ->].
  destruct (run_callGoogleAPI_total w (GenerateText.googleApiUrl apiKey)
              (GenerateText.payload (JString s) systemInstruction)
              GenerateText.API_TIMEOUT) as [result Hcall].
  unfold GenerateText.call_and_respond.
  rewrite requests_try_catch, run_bind, requests_bind, requests_callGoogleAPI, Hcall.
  destruct result as [data|error]; reflexivity.
Qed.



End HandlerCases.

Section Edges.
Context `{rt : Runtime}.
Import Utils.

(** X17: a body that is valid JSON for null makes either handler answer 500
    with the generic server-error message around the TypeError of the
    destructuring; no request is validated or sent. *)
Theorem handlers_null_data (w : World) (env : gmap jsstring jsstring) (event : HandlerEvent)
    (apiKey : jsstring) :
  validateApiKey env = ApiKeyOk apiKey →
  parseRequestBody (body_value event) = BodyOk JNull →
  run w (GenerateAudio.handler env event)
  = Normal (error_response 500
              (js "伺服器錯誤: " ++ TypeError_destructure (js "text") (js "null"))) ∧
  run w (GenerateText.handler env event)
  = Normal (error_response 500
              (js "伺服器錯誤: " ++ TypeError_destructure (js "prompt") (js "null"))) ∧
  requests w (GenerateAudio.handler env event) = [] ∧
  requests w (GenerateText.handler env event) = [].
Proof.
  intros Hkey Hbody. unfold GenerateAudio.handler, GenerateText.handler.
  rewrite Hkey, Hbody. repeat split; reflexivity.
Qed.

(** X18: a body that is valid JSON but neither an object nor null (a
    boolean, a number, a string, an array) has none of the fields, so either
    handler answers with the 400 of a missing field, not with a 500. *)
Theorem handlers_non_object_data (env : gmap jsstring jsstring) (event : HandlerEvent)
    (apiKey : jsstring) (data : JsValue) :
  validateApiKey env = ApiKeyOk apiKey →
  parseRequestBody (body_value event) = BodyOk data →
  ((∃ b, data = JBool b) ∨ (∃ n, data = JNumber n) ∨
   (∃ s, data = JString s) ∨ (∃ xs, data = JArray xs)) →
  GenerateAudio.handler env event
  = Ret (error_response 400 (js "text" ++ js " 不得為空且必須是字符串。")) ∧
  GenerateText.handler env event
  = Ret (error_response 400 (js "prompt" ++ js " 不得為空且必須是字符串。")).
Proof.
  intros Hkey Hbody Hdata. unfold GenerateAudio.handler, GenerateText.handler.
  rewrite Hkey, Hbody.
  destruct Hdata as [[b ->]|[[n ->]|[[s ->]|[xs ->]]]]; split; reflexivity.
Qed.

(** X19: the audio check reads the first part of the first candidate and
    nothing else.  Wherever the properties [candidates], [content], [parts],
    [inlineData] and [data] stand in their objects, the value found is the
    [data] of the [inlineData] of the first part of the first candidate:
    other candidates, other parts and other properties, before or after the
    ones read, make no difference.  Without a [candidates] property nothing
    is found. *)
Theorem inline_audio_first_part
    (data candidate content part inlineData : list (jsstring * JsValue))
    (other_candidates other_parts : list JsValue) :
  (lookup_property (js "candidates") data
   = Some (JArray (JObject candidate :: other_candidates)) →
   lookup_property (js "content") candidate = Some (JObject content) →
   lookup_property (js "parts") content = Some (JArray (JObject part :: other_parts)) →
   lookup_property (js "inlineData") part = Some (JObject inlineData) →
   GenerateAudio.inline_audio (JObject data)
   = default JUndefined (lookup_property (js "data") inlineData)) ∧
  (lookup_property (js "candidates") data = None →
   GenerateAudio.inline_audio (JObject data) = JUndefined).
Proof.
  assert (Hfirst : array_index (js "0") = Some 0%N) by reflexivity.
  rewrite inline_audio_value_at. cbn [value_at json_member]. split.
  - intros Hcandidates Hcontent Hparts HinlineData.
    rewrite Hcandidates. cbn [json_member]. rewrite Hfirst.
    change (N.to_nat 0) with 0. cbn [lookup list_lookup json_member].
    rewrite Hcontent. cbn [json_member]. rewrite Hparts. cbn [json_member].
    rewrite Hfirst. change (N.to_nat 0) with 0. cbn [lookup list_lookup json_member].
    rewrite HinlineData. cbn [json_member].
    destruct (lookup_property (js "data") inlineData); reflexivity.
  - intros Hnone. rewrite Hnone. reflexivity.
Qed.











End Edges.

Section SystemInstruction.
Context `{rt : Runtime}.
Import Utils.

(** X22: the system instruction is optional in a strict sense.  A falsy one
    (absent, null, empty string, 0, false) is neither checked nor sent: the
    request goes out with the prompt alone.  A truthy one that is not a
    string is refused with a 400 that names the field. *)
Theorem text_handler_systemInstruction (w : World) (env : gmap jsstring jsstring)
    (event : HandlerEvent) (apiKey : jsstring) (data : JsValue) :
  validateApiKey env = ApiKeyOk apiKey →
  parseRequestBody (body_value event) = BodyOk data →
  data ≠ JNull → data ≠ JUndefined →
  validateTextLength (GetV data (js "prompt")) GenerateText.MAX_PROMPT_LENGTH (js "prompt")
    = Valid →
  (ToBoolean (GetV data (js "systemInstruction")) = false →
   requests w (GenerateText.handler env event)
   = [(GenerateText.googleApiUrl apiKey,
       post_json
         (JObject
            [(js "contents",
              JArray [JObject [(js "parts",
                                JArray [JObject [(js "text", GetV data (js "prompt"))]])]])]),
       30000%Z)]) ∧
  (ToBoolean (GetV data (js "systemInstruction")) = true →
   is_string (GetV data (js "systemInstruction")) = false →
   GenerateText.handler env event
   = Ret (error_response 400 (js "systemInstruction" ++ js " 不得為空且必須是字符串。"))).
Proof.
  intros Hkey Hbody Hnull Hundef Hprompt. split.
  - intros Hfalsy.
    assert (Hacc : text_accepted env event apiKey (GetV data (js "prompt"))
                     (GetV data (js "systemInstruction"))).
    { split; [exact Hkey|]. exists data.
      repeat (split; [assumption || reflexivity|]). rewrite Hfalsy. discriminate. }
    rewrite (requests_text_accepted _ _ _ _ _ _ Hacc).
    unfold GenerateText.payload. rewrite Hfalsy. reflexivity.
  - intros Htruthy Hstring. unfold GenerateText.handler. rewrite Hkey, Hbody.
    rewrite destructure_object by assumption. cbn [bind]. rewrite Hprompt, Htruthy.
    unfold validateTextLength. rewrite Htruthy, Hstring. reflexivity.
Qed.

End SystemInstruction.

Section GenericError.
Context `{rt : Runtime}.
Import Utils.

Lemma validateApiKey_specific (env : gmap jsstring jsstring) (error : Response) :
  validateApiKey env = ApiKeyFail error →
  ∃ code msg, error = error_response code msg ∧ specific msg.
Proof.
  unfold validateApiKey.
  destruct (env !! js "GEMINI_API_KEY") as [[|c apiKey]|]; [|discriminate|];
    intros [= <-]; eexists; eexists; split; reflexivity.
Qed.

Lemma parseRequestBody_specific (body : JsValue) (error : Response) :
  parseRequestBody body = BodyFail error →
  ∃ code msg, error = error_response code msg ∧ specific msg.
Proof.
  unfold parseRequestBody. destruct (negb (ToBoolean body)).
  - intros [= <-]; eexists; eexists; split; reflexivity.
  - destruct (JSON_parse body); [discriminate|].
    intros [= <-]; eexists; eexists; split; reflexivity.
Qed.

Lemma validateTextLength_specific (text : JsValue) (maxLength : Z) (fieldName : jsstring)
    (error : Response) :
  fieldName = js "text" ∨ fieldName = js "prompt" ∨ fieldName = js "systemInstruction" →
  validateTextLength text maxLength fieldName = Invalid error →
  ∃ code msg, error = error_response code msg ∧ specific msg.
Proof.
  intros Hfield. unfold validateTextLength.
  destruct (negb (ToBoolean text) || negb (is_string text)).
  - intros [= <-]; eexists; eexists; split; [reflexivity|].
    destruct Hfield as [-> | [-> | ->]]; reflexivity.
  - destruct (string_length text >? maxLength)%Z; [|discriminate].
    intros [= <-]; eexists; eexists; split; [reflexivity|].
    destruct Hfield as [-> | [-> | ->]]; reflexivity.
Qed.

Lemma callGoogleAPI_specific (w : World) (url : jsstring) (payload : JsValue) (timeout : Z)
    (error : Response) :
  run w (callGoogleAPI url payload timeout) = Normal (ApiFail error) →
  ∃ code msg, error = error_response code msg ∧ specific msg.
Proof.
  rewrite run_callGoogleAPI.
  assert (Hcatch : ∀ e, on_fetch_error timeout e = ApiFail error →
                        ∃ code msg, error = error_response code msg ∧ specific msg).
  { intros e. unfold on_fetch_error.
    case_bool_decide; intros [= <-]; eexists; eexists; split; reflexivity. }
  destruct (await_fetch _) as [response|e]; [|intros [= H]; exact (Hcatch _ H)].
  destruct (negb (res_ok response)).
  - destruct (res_text response) as [t|e]; [|intros [= H]; exact (Hcatch _ H)].
    intros [= <-]; eexists; eexists; split; reflexivity.
  - destruct (res_json response); [discriminate|].
    intros [= <-]; eexists; eexists; split; reflexivity.
Qed.

Lemma error_response_inj (code code' : Z) (msg msg' : jsstring) :
  error_response code msg = error_response code' msg' → code = code' ∧ msg = msg'.
Proof.
  intros H. split; [exact (f_equal statusCode H)|].
  pose proof (f_equal error_message H) as Hmsg.
  rewrite !error_message_error_response in Hmsg. congruence.
Qed.

Lemma parseRequestBody_defined (body data : JsValue) :
  parseRequestBody body = BodyOk data →
  data = JNull ∨ (data ≠ JNull ∧ data ≠ JUndefined) ∨ data = JUndefined.
Proof. intros _. destruct data; auto; right; left; split; discriminate. Qed.

End GenericError.

Section GenericErrorOnlyForNull.
Context `{rt : Runtime}.
Import Utils.

Lemma expect_value (word s : jsstring) (v v' : JsValue) (r : jsstring) :
  expect word s v = Parsed v' r → v' = v.
Proof. unfold expect. destruct (startsWith s word); [|discriminate]. congruence. Qed.

(** [JSON.parse] never returns undefined. *)
Lemma parse_value_defined (fuel : nat) (s : jsstring) (v : JsValue) (r : jsstring) :
  parse_value fuel s = Parsed v r → v ≠ JUndefined.
Proof.
  destruct fuel as [|fuel]; [discriminate|]. destruct s as [|c t]; [discriminate|].
  cbn [parse_value].
  destruct (c =? 110)%N; [intros H; apply expect_value in H as ->; discriminate|].
  destruct (c =? 116)%N; [intros H; apply expect_value in H as ->; discriminate|].
  destruct (c =? 102)%N; [intros H; apply expect_value in H as ->; discriminate|].
  destruct (c =? 34)%N.
  { destruct (parse_chars t) as [[? ?]|]; [|discriminate]. intros [= <- _]; discriminate. }
  destruct (c =? 91)%N.
  { destruct (skip_ws t) as [|c' t']; [discriminate|].
    destruct (c' =? 93)%N; [intros [= <- _]; discriminate|].
    destruct (parse_elements fuel (c' :: t')); try discriminate.
    intros [= <- _]; discriminate. }
  destruct (c =? 123)%N.
  { destruct (skip_ws t) as [|c' t']; [discriminate|].
    destruct (c' =? 125)%N; [intros [= <- _]; discriminate|].
    destruct (parse_members fuel (c' :: t')); try discriminate.
    intros [= <- _]; discriminate. }
  destruct (lex_number (c :: t)) as [[? ?]|]; [|discriminate].
  intros [= <- _]; discriminate.
Qed.

Lemma parseRequestBody_not_undefined (body data : JsValue) :
  parseRequestBody body = BodyOk data → data ≠ JUndefined.
Proof.
  unfold parseRequestBody. destruct (negb (ToBoolean body)); [discriminate|].
  unfold JSON_parse, JSON_parse_text.
  destruct (parse_value _ _) as [v rest| |] eqn:Hparse; try discriminate.
  destruct (skip_ws rest); [|discriminate]. intros [= <-].
  exact (parse_value_defined _ _ _ _ Hparse).
Qed.

Lemma answer_null_or_specific (w : World) (env : gmap jsstring jsstring)
    (event : HandlerEvent) (url : jsstring) (payload : JsValue) (timeout : Z)
    (result : ApiResult) :
  run w (callGoogleAPI url payload timeout) = Normal result →
  null_or_specific env event (Normal (audio_answer result)) ∧
  null_or_specific env event (Normal (text_answer result)).
Proof.
  intros Hcall. destruct result as [data|error]; cbn [audio_answer text_answer].
  - split; [|right; left; eauto].
    destruct (ToBoolean _); [right; left; eauto|].
    right. right. eexists. eexists. split; reflexivity.
  - destruct (callGoogleAPI_specific _ _ _ _ _ Hcall) as (code & msg & -> & Hs).
    split; right; right; eauto.
Qed.

Lemma audio_null_or_specific (w : World) (env : gmap jsstring jsstring)
    (event : HandlerEvent) :
  null_or_specific env event (run w (GenerateAudio.handler env event)).
Proof.
  destruct (validateApiKey env) as [apiKey|error] eqn:Hkey.
  2: { destruct (validateApiKey_specific _ _ Hkey) as (code & msg & -> & Hs).
       unfold GenerateAudio.handler. rewrite Hkey. right. right. eauto. }
  destruct (parseRequestBody (body_value event)) as [data|error] eqn:Hbody.
  2: { destruct (parseRequestBody_specific _ _ Hbody) as (code & msg & -> & Hs).
       unfold GenerateAudio.handler. rewrite Hkey, Hbody. right. right. eauto. }
  destruct (parseRequestBody_defined _ _ Hbody) as [-> | [[Hnull Hundef] | ->]].
  - left. eauto.
  - destruct (validateTextLength (GetV data (js "text")) GenerateAudio.MAX_TEXT_LENGTH
                (js "text")) as [|error] eqn:Hvalid.
    + assert (Hacc : audio_accepted env event apiKey (GetV data (js "text"))).
      { split; [exact Hkey|]. exists data. auto. }
      destruct (run_callGoogleAPI_total w (GenerateAudio.googleTtsApiUrl apiKey)
                  (GenerateAudio.payload (GetV data (js "text")))
                  GenerateAudio.API_TIMEOUT) as [result Hcall].
      rewrite (run_audio_accepted _ _ _ _ _ _ Hacc Hcall).
      exact (proj1 (answer_null_or_specific _ _ _ _ _ _ _ Hcall)).
    + destruct (validateTextLength_specific _ _ (js "text") _ (or_introl eq_refl) Hvalid)
        as (code & msg & -> & Hs).
      unfold GenerateAudio.handler. rewrite Hkey, Hbody.
      rewrite destructure_object by assumption. cbn [bind]. rewrite Hvalid.
      right. right. eauto.
  - destruct (parseRequestBody_not_undefined _ _ Hbody eq_refl).
Qed.

Lemma text_null_or_specific (w : World) (env : gmap jsstring jsstring)
    (event : HandlerEvent) :
  null_or_specific env event (run w (GenerateText.handler env event)).
Proof.
  destruct (validateApiKey env) as [apiKey|error] eqn:Hkey.
  2: { destruct (validateApiKey_specific _ _ Hkey) as (code & msg & -> & Hs).
       unfold GenerateText.handler. rewrite Hkey. right. right. eauto. }
  destruct (parseRequestBody (body_value event)) as [data|error] eqn:Hbody.
  2: { destruct (parseRequestBody_specific _ _ Hbody) as (code & msg & -> & Hs).
       unfold GenerateText.handler. rewrite Hkey, Hbody. right. right. eauto. }
  destruct (parseRequestBody_defined _ _ Hbody) as [-> | [[Hnull Hundef] | ->]].
  - left. eauto.
  - destruct (validateTextLength (GetV data (js "prompt")) GenerateText.MAX_PROMPT_LENGTH
                (js "prompt")) as [|error] eqn:Hprompt.
    2: { destruct (validateTextLength_specific _ _ (js "prompt") _
                     (or_intror (or_introl eq_refl)) Hprompt)
           as (code & msg & -> & Hs).
         unfold GenerateText.handler. rewrite Hkey, Hbody.
         rewrite destructure_object by assumption. cbn [bind]. rewrite Hprompt.
         right. right. eauto. }
    assert (Hsent : text_accepted env event apiKey (GetV data (js "prompt"))
                      (GetV data (js "systemInstruction")) →
                    null_or_specific env event (run w (GenerateText.handler env event))).
    { intros Hacc.
      destruct (run_callGoogleAPI_total w (GenerateText.googleApiUrl apiKey)
                  (GenerateText.payload (GetV data (js "prompt"))
                     (GetV data (js "systemInstruction")))
                  GenerateText.API_TIMEOUT) as [result Hcall].
      rewrite (run_text_accepted _ _ _ _ _ _ _ Hacc Hcall).
      exact (proj2 (answer_null_or_specific _ _ _ _ _ _ _ Hcall)). }
    destruct (ToBoolean (GetV data (js "systemInstruction"))) eqn:Htruthy.
    + destruct (validateTextLength (GetV data (js "systemInstruction"))
                  GenerateText.MAX_PROMPT_LENGTH (js "systemInstruction"))
        as [|error] eqn:Hsys.
      * apply Hsent. split; [exact Hkey|]. exists data. auto 10.
      * destruct (validateTextLength_specific _ _ (js "systemInstruction") _
                    (or_intror (or_intror eq_refl)) Hsys)
          as (code & msg & -> & Hs).
        unfold GenerateText.handler. rewrite Hkey, Hbody.
        rewrite destructure_object by assumption. cbn [bind].
        rewrite Hprompt, Htruthy, Hsys. right. right. eauto.
    + apply Hsent. split; [exact Hkey|]. exists data.
      repeat (split; [assumption || reflexivity|]). rewrite Htruthy. discriminate.
  - destruct (parseRequestBody_not_undefined _ _ Hbody eq_refl).
Qed.

(** X23: the generic server error is kept for one kind of request.  When a
    handler answers 500 with a message that starts as the generic one does,
    the credential was set and the body was JSON for null; every other
    failure has a message of its own. *)
Theorem generic_error_only_for_null (w : World) (env : gmap jsstring jsstring)
    (event : HandlerEvent) (detail : jsstring) :
  run w (GenerateAudio.handler env event)
  = Normal (error_response 500 (js "伺服器錯誤: " ++ detail)) ∨
  run w (GenerateText.handler env event)
  = Normal (error_response 500 (js "伺服器錯誤: " ++ detail)) →
  ∃ apiKey, validateApiKey env = ApiKeyOk apiKey ∧
            parseRequestBody (body_value event) = BodyOk JNull.
Proof.
  intros H.
  assert (Hcases : null_or_specific env event
                     (Normal (error_response 500 (js "伺服器錯誤: " ++ detail)))).
  { destruct H as [H|H]; rewrite <- H;
      [apply audio_null_or_specific|apply text_null_or_specific]. }
  destruct Hcases as [Hnull|[[data Hdata]|(code & msg & Hmsg & Hspecific)]].
  - exact Hnull.
  - assert (E : error_response 500 (js "伺服器錯誤: " ++ detail) = createSuccessResponse data)
      by congruence.
    discriminate (f_equal statusCode E).
  - assert (E : error_response 500 (js "伺服器錯誤: " ++ detail) = error_response code msg)
      by congruence.
    apply error_response_inj in E as [_ <-].
    unfold specific in Hspecific. rewrite startsWith_app in Hspecific. discriminate.
Qed.

End GenericErrorOnlyForNull.

(** ** The properties at work on concrete requests *)

Import Utils.
#[local] Existing Instance IntegerRuntime.

Lemma validateTextLength_spec_witness :
  (∀ s, Z.of_nat (length s) = 3%Z →
     validateTextLength (rt := IntegerRuntime) (JString s) 3 (js "text") = Valid) ∧
  (∀ error,
     validateTextLength (rt := IntegerRuntime) (JString (js "hello")) 3 (js "text")
       = Invalid error → statusCode error = 400%Z).
Proof.
  destruct (validateTextLength_spec (rt := IntegerRuntime) (JString (js "hello")) 3 (js "text")
              ltac:(lia)) as (_ & Hfail & Hpass & _).
  split; [exact Hpass|]. intros error H. apply (Hfail error H).
Defined.

(** C2 as it was stated fails on the empty string: its length is within any
    bound, and it is rejected. *)
Lemma validateTextLength_rejects_empty :
  (Z.of_nat (length ([] : jsstring)) <= 5000)%Z ∧
  validateTextLength (rt := IntegerRuntime) (JString []) 5000 (js "text") ≠ Valid.
Proof. split; [simpl; lia|discriminate]. Qed.

Lemma validateTextLength_accepts_witness :
  validateTextLength (rt := IntegerRuntime) (JString (js "Hello world")) 100 (js "text") = Valid.
Proof.
  apply (validateTextLength_accepts (rt := IntegerRuntime)); [discriminate|vm_compute; discriminate].
Defined.

Lemma validateApiKey_spec_witness :
  validateApiKey (rt := IntegerRuntime) sample_env = ApiKeyOk (js "test-key") ∧
  ∃ error, validateApiKey (rt := IntegerRuntime) ∅ = ApiKeyFail error.
Proof.
  split.
  - apply (validateApiKey_spec (rt := IntegerRuntime) sample_env); [reflexivity|discriminate].
  - apply (validateApiKey_spec (rt := IntegerRuntime) ∅). left. reflexivity.
Defined.

Lemma parseRequestBody_spec_witness :
  parseRequestBody (rt := IntegerRuntime) (JString (js_quoted "{'text':'Hello'}"))
  = BodyOk (JObject [(js "text", JString (js "Hello"))]) ∧
  ∃ error, parseRequestBody (rt := IntegerRuntime) (JString (js "{ invalid json")) = BodyFail error
           ∧ statusCode error = 400%Z.
Proof.
  destruct (parseRequestBody_spec (rt := IntegerRuntime)) as (_ & _ & Hbad & Hgood).
  split.
  - apply Hgood. reflexivity.
  - assert (Hne : js "{ invalid json" ≠ []) by (vm_compute; discriminate).
    destruct (Hbad (js "{ invalid json") (SyntaxError (js "{ invalid json")) Hne eq_refl)
      as (_ & error & msg & H & Hstatus & _).
    exists error. split; assumption.
Defined.

Lemma createSuccessResponse_spec_witness :
  ∃ text, body (createSuccessResponse sample_audio) = Some text ∧
          JSON_parse_text text = Normal sample_audio.
Proof.
  apply (createSuccessResponse_spec (rt := IntegerRuntime) sample_audio). reflexivity.
Defined.

Lemma callGoogleAPI_timeout_witness :
  ∃ error msg,
    run (world_of TimerFired) (callGoogleAPI (js "https://example.test/") JNull 30000)
      = Normal (ApiFail error) ∧
    statusCode error = 504%Z ∧
    error_message error = Some msg ∧
    includes msg (js "30000") = true.
Proof.
  apply (callGoogleAPI_timeout (rt := IntegerRuntime) (world_of TimerFired)). reflexivity.
Defined.

Lemma callGoogleAPI_http_error_witness :
  ∃ error msg,
    run (world_of (FetchSettled (Resolved (sample_response 429 (js "quota exceeded")))))
      (callGoogleAPI (js "https://example.test/") JNull 30000) = Normal (ApiFail error) ∧
    statusCode error = 429%Z ∧
    error_message error = Some msg ∧
    includes msg (js "429") = true ∧
    includes msg (js "quota exceeded") = true.
Proof.
  apply (callGoogleAPI_http_error (rt := IntegerRuntime)
           (world_of (FetchSettled (Resolved (sample_response 429 (js "quota exceeded")))))
           (js "https://example.test/") JNull 30000
           (sample_response 429 (js "quota exceeded")) (js "quota exceeded"));
    [reflexivity|right; simpl; lia|reflexivity].
Defined.

Lemma handlers_short_circuit_witness :
  GenerateAudio.handler ∅ {| event_body := Some (js "{}") |}
  = Ret (error_response 500 (js "API 金鑰未設定。請檢查環境變數配置。")) ∧
  GenerateText.handler sample_env {| event_body := None |}
  = Ret (error_response 400 (js "請求體不得為空。")) ∧
  GenerateAudio.handler sample_env {| event_body := Some (js "{}") |}
  = Ret (error_response 400 (js "text 不得為空且必須是字符串。")).
Proof.
  assert (Hset : validateApiKey sample_env = ApiKeyOk (js "test-key"))
    by (vm_compute; reflexivity).
  split; [|split].
  - destruct (handlers_short_circuit ∅ {| event_body := Some (js "{}") |})
      as (_ & _ & _ & Hkey & _).
    assert (H : validateApiKey ∅
                = ApiKeyFail (error_response 500 (js "API 金鑰未設定。請檢查環境變數配置。")))
      by (vm_compute; reflexivity).
    destruct (Hkey _ H) as [Haudio _]. exact Haudio.
  - destruct (handlers_short_circuit sample_env {| event_body := None |})
      as (_ & _ & _ & _ & Hbody & _).
    assert (H : parseRequestBody (body_value {| event_body := None |})
                = BodyFail (error_response 400 (js "請求體不得為空。")))
      by (vm_compute; reflexivity).
    destruct (Hbody _ _ Hset H) as [_ Htext]. exact Htext.
  - destruct (handlers_short_circuit sample_env {| event_body := Some (js "{}") |})
      as (_ & _ & _ & _ & _ & Hfield).
    assert (H : parseRequestBody (body_value {| event_body := Some (js "{}") |})
                = BodyOk (JObject []))
      by (vm_compute; reflexivity).
    destruct (Hfield (js "test-key") (JObject [])
                (error_response 400 (js "text 不得為空且必須是字符串。"))
                Hset H ltac:(discriminate) ltac:(discriminate)) as [Haudio _].
    apply Haudio. vm_compute. reflexivity.
Defined.

Lemma audio_handler_checks_audio_witness :
  run (world_of (FetchSettled (Resolved {| res_status := 200; res_text := Resolved [];
                                            res_json := Resolved sample_audio |})))
    (GenerateAudio.handler sample_env {| event_body := Some (js_quoted "{'text':'Hello'}") |})
  = Normal (createSuccessResponse sample_audio).
Proof.
  assert (Hset : validateApiKey sample_env = ApiKeyOk (js "test-key"))
    by (vm_compute; reflexivity).
  assert (Hbody : parseRequestBody
                    (body_value {| event_body := Some (js_quoted "{'text':'Hello'}") |})
                  = BodyOk (JObject [(js "text", JString (js "Hello"))]))
    by (vm_compute; reflexivity).
  assert (Hvalid : validateTextLength
                     (GetV (JObject [(js "text", JString (js "Hello"))]) (js "text"))
                     GenerateAudio.MAX_TEXT_LENGTH (js "text") = Valid)
    by (vm_compute; reflexivity).
  assert (Hcall : run (world_of (FetchSettled (Resolved {| res_status := 200;
                                                            res_text := Resolved [];
                                                            res_json := Resolved sample_audio |})))
                    (callGoogleAPI (GenerateAudio.googleTtsApiUrl (js "test-key"))
                       (GenerateAudio.payload
                          (GetV (JObject [(js "text", JString (js "Hello"))]) (js "text")))
                       GenerateAudio.API_TIMEOUT) = Normal (ApiOk sample_audio))
    by (vm_compute; reflexivity).
  assert (Haudio : value_at [js "candidates"; js "0"; js "content"; js "parts"; js "0";
                             js "inlineData"; js "data"] sample_audio
                   = Some (JString (js "UklGRg==")))
    by (vm_compute; reflexivity).
  destruct (audio_handler_checks_audio _ _ _ _ _ _ _ Hset Hbody
              ltac:(discriminate) ltac:(discriminate) Hvalid Hcall Haudio) as [Hrun _].
  exact Hrun.
Defined.

Lemma text_handler_null_body_witness :
  ∃ response,
    run (world_of TimerFired)
      (GenerateText.handler sample_env {| event_body := Some (js "null") |}) = Normal response ∧
    statusCode response = 500%Z.
Proof.
  destruct (text_handler_null_body (rt := IntegerRuntime) (world_of TimerFired) sample_env
              (js "test-key") eq_refl) as (_ & response & Hrun & Hstatus & _).
  exists response. split; assumption.
Defined.

(** ** More properties at work on concrete requests *)

Lemma sample_audio_accepted :
  audio_accepted sample_env sample_audio_event (js "test-key") (JString (js "Hello")).
Proof.
  split; [vm_compute; reflexivity|].
  exists (JObject [(js "text", JString (js "Hello"))]).
  split; [vm_compute; reflexivity|]. split; [discriminate|]. split; [discriminate|].
  split; vm_compute; reflexivity.
Qed.

Lemma sample_text_accepted :
  text_accepted sample_env sample_text_event (js "test-key")
    (JString (js "Hi")) (JString (js "Be brief")).
Proof.
  split; [vm_compute; reflexivity|].
  exists (JObject [(js "prompt", JString (js "Hi"));
                   (js "systemInstruction", JString (js "Be brief"))]).
  split; [vm_compute; reflexivity|]. split; [discriminate|]. split; [discriminate|].
  split; [vm_compute; reflexivity|]. split; [vm_compute; reflexivity|].
  split; [vm_compute; reflexivity|]. intros _. vm_compute. reflexivity.
Qed.

Lemma callGoogleAPI_success_witness :
  run (world_of (FetchSettled (Resolved (sample_response 200 (js_quoted "{'ok':true}")))))
    (callGoogleAPI (js "https://example.test/") JNull 30000)
  = Normal (ApiOk (JObject [(js "ok", JBool true)])).
Proof.
  apply (callGoogleAPI_success _ _ _ _ (sample_response 200 (js_quoted "{'ok':true}")));
    [reflexivity|simpl; lia|vm_compute; reflexivity].
Defined.

Lemma callGoogleAPI_malformed_response_witness :
  ∃ error,
    run (world_of (FetchSettled (Resolved (sample_response 200 (js "<html>")))))
      (callGoogleAPI (js "https://example.test/") JNull 30000) = Normal (ApiFail error) ∧
    statusCode error = 500%Z.
Proof.
  destruct (callGoogleAPI_malformed_response
              (world_of (FetchSettled (Resolved (sample_response 200 (js "<html>")))))
              (js "https://example.test/") JNull 30000
              (sample_response 200 (js "<html>"))
              (SyntaxError (rt := IntegerRuntime) (js "<html>"))
              eq_refl ltac:(simpl; lia) ltac:(vm_compute; reflexivity))
    as (error & Hrun & Hstatus & _).
  exists error. split; assumption.
Defined.

Lemma callGoogleAPI_network_error_witness :
  ∃ failure,
    run (world_of (FetchSettled (Rejected (Error (js "getaddrinfo ENOTFOUND")))))
      (callGoogleAPI (js "https://example.test/") JNull 30000) = Normal (ApiFail failure) ∧
    statusCode failure = 500%Z.
Proof.
  destruct (callGoogleAPI_network_error
              (world_of (FetchSettled (Rejected (Error (js "getaddrinfo ENOTFOUND")))))
              (js "https://example.test/") JNull 30000 (Error (js "getaddrinfo ENOTFOUND"))
              (or_introl eq_refl) ltac:(vm_compute; discriminate))
    as (failure & Hrun & Hstatus & _).
  exists failure. split; assumption.
Defined.

Lemma validateApiKey_environment_witness :
  validateApiKey (<[js "NODE_ENV" := js "production"]> sample_env) = validateApiKey sample_env ∧
  validateApiKey (<[js "GEMINI_API_KEY" := js "other-key"]> sample_env)
  = ApiKeyOk (js "other-key").
Proof.
  destruct (validateApiKey_environment sample_env (js "NODE_ENV") (js "production"))
    as (Hother & _ & _).
  destruct (validateApiKey_environment sample_env (js "NODE_ENV") (js "other-key"))
    as (_ & Hset & _).
  split.
  - apply Hother. vm_compute. discriminate.
  - apply Hset. vm_compute. discriminate.
Defined.

Lemma validateTextLength_monotone_witness :
  validateTextLength (JString (js "Hello")) 5000 (js "prompt") = Valid.
Proof.
  apply (validateTextLength_monotone (JString (js "Hello")) 3000 5000 (js "text") (js "prompt"));
    [lia|vm_compute; reflexivity].
Defined.

Lemma parseRequestBody_whitespace_witness :
  parseRequestBody (JString (js "  "))
  = BodyFail (error_response 400 (js "JSON 解析失敗: " ++ SyntaxError_message (js "  "))).
Proof.
  apply (parseRequestBody_whitespace (js "  ")); [vm_compute; discriminate|vm_compute; reflexivity].
Defined.

Lemma utils_errors_are_envelopes_witness :
  ∃ msg, error_message (error_response 400 (js "text 不得為空且必須是字符串。")) = Some msg.
Proof.
  destruct (utils_errors_are_envelopes
              (error_response 400 (js "text 不得為空且必須是字符串。")))
    as (_ & msg & text & _ & _ & Hmsg).
  - right. right. left. exists (JString []), 100%Z, (js "text"). vm_compute. reflexivity.
  - exists msg. exact Hmsg.
Defined.

Lemma handlers_pass_failure_through_witness :
  run (world_of TimerFired) (GenerateAudio.handler sample_env sample_audio_event)
  = Normal (error_response 504 (js "請求超時（45000ms）。請稍後重試。")).
Proof.
  destruct (handlers_pass_failure_through (world_of TimerFired) sample_env sample_audio_event
              (js "test-key")
              (error_response 504 (js "請求超時（45000ms）。請稍後重試。"))) as [Haudio _].
  apply (Haudio _ sample_audio_accepted). vm_compute. reflexivity.
Defined.

Lemma text_handler_success_witness :
  run (world_of (FetchSettled (Resolved (sample_response 200 (js_quoted "{'ok':true}")))))
    (GenerateText.handler sample_env sample_text_event)
  = Normal (createSuccessResponse (JObject [(js "ok", JBool true)])).
Proof.
  apply (text_handler_success _ _ _ _ _ _ _ sample_text_accepted). vm_compute. reflexivity.
Defined.

Lemma handlers_timeout_witness :
  run (world_of TimerFired) (GenerateText.handler sample_env sample_text_event)
  = Normal (error_response 504 (js "請求超時（" ++ js "30000" ++ js "ms）。請稍後重試。")).
Proof.
  destruct (handlers_timeout (world_of TimerFired) sample_env sample_text_event (js "test-key"))
    as [_ Htext].
  apply (Htext _ _ sample_text_accepted). reflexivity.
Defined.

Lemma handlers_upstream_status_witness :
  ∃ answer,
    run (world_of (FetchSettled (Resolved (sample_response 429 (js "quota exceeded")))))
      (GenerateAudio.handler sample_env sample_audio_event) = Normal answer ∧
    statusCode answer = 429%Z.
Proof.
  destruct (handlers_upstream_status
              (world_of (FetchSettled (Resolved (sample_response 429 (js "quota exceeded")))))
              sample_env sample_audio_event (js "test-key")
              (sample_response 429 (js "quota exceeded")) (js "quota exceeded")
              ltac:(right; simpl; lia) eq_refl) as [Haudio _].
  destruct (Haudio _ sample_audio_accepted eq_refl) as (answer & msg & Hrun & Hstatus & _).
  exists answer. split; assumption.
Defined.



Lemma handlers_null_data_witness :
  requests (world_of TimerFired)
    (GenerateAudio.handler sample_env {| event_body := Some (js " null ") |}) = [].
Proof.
  destruct (handlers_null_data (world_of TimerFired) sample_env
              {| event_body := Some (js " null ") |} (js "test-key"))
    as (_ & _ & Hnone & _); [vm_compute; reflexivity..|].
  exact Hnone.
Defined.

Lemma handlers_non_object_data_witness :
  GenerateAudio.handler sample_env {| event_body := Some (js "[1,2]") |}
  = Ret (error_response 400 (js "text" ++ js " 不得為空且必須是字符串。")).
Proof.
  destruct (handlers_non_object_data sample_env {| event_body := Some (js "[1,2]") |}
              (js "test-key") (JArray [JNumber (1%Z : @Num IntegerRuntime);
                                       JNumber (2%Z : @Num IntegerRuntime)]))
    as [Haudio _]; [vm_compute; reflexivity..| |exact Haudio].
  right. right. right. eexists. reflexivity.
Defined.

Lemma inline_audio_first_part_witness :
  GenerateAudio.inline_audio sample_audio = JString (js "UklGRg==").
Proof.
  destruct (inline_audio_first_part
              [(js "candidates",
                JArray
                  [JObject
                     [(js "content",
                       JObject
                         [(js "parts",
                           JArray
                             [JObject
                                [(js "inlineData",
                                  JObject [(js "mimeType", JString (js "audio/L16"));
                                           (js "data", JString (js "UklGRg=="))])]])]);
                      (js "index", JNumber (0%Z : @Num IntegerRuntime))]])]
              [(js "content",
                JObject
                  [(js "parts",
                    JArray
                      [JObject
                         [(js "inlineData",
                           JObject [(js "mimeType", JString (js "audio/L16"));
                                    (js "data", JString (js "UklGRg=="))])]])]);
               (js "index", JNumber (0%Z : @Num IntegerRuntime))]
              [(js "parts",
                JArray
                  [JObject
                     [(js "inlineData",
                       JObject [(js "mimeType", JString (js "audio/L16"));
                                (js "data", JString (js "UklGRg=="))])]])]
              [(js "inlineData",
                JObject [(js "mimeType", JString (js "audio/L16"));
                         (js "data", JString (js "UklGRg=="))])]
              [(js "mimeType", JString (js "audio/L16"));
               (js "data", JString (js "UklGRg=="))]
              [] []) as [Hfound _].
  exact (Hfound eq_refl eq_refl eq_refl eq_refl).
Defined.


Lemma text_handler_systemInstruction_witness :
  GenerateText.handler sample_env
    {| event_body := Some (js_quoted "{'prompt':'Hi','systemInstruction':7}") |}
  = Ret (error_response 400 (js "systemInstruction" ++ js " 不得為空且必須是字符串。")).
Proof.
  destruct (text_handler_systemInstruction (world_of TimerFired) sample_env
              {| event_body := Some (js_quoted "{'prompt':'Hi','systemInstruction':7}") |}
              (js "test-key")
              (JObject [(js "prompt", JString (js "Hi"));
                        (js "systemInstruction", JNumber (7%Z : @Num IntegerRuntime))]))
    as [_ Hrefused]; [vm_compute; reflexivity| vm_compute; reflexivity
                     | discriminate | discriminate | vm_compute; reflexivity |].
  apply Hrefused; vm_compute; reflexivity.
Defined.

Lemma generic_error_only_for_null_witness :
  ∃ apiKey, validateApiKey sample_env = ApiKeyOk apiKey ∧
            parseRequestBody (body_value {| event_body := Some (js "null") |}) = BodyOk JNull.
Proof.
  apply (generic_error_only_for_null (world_of TimerFired) sample_env
           {| event_body := Some (js "null") |}
           (TypeError_destructure (js "text") (js "null"))).
  left. vm_compute. reflexivity.
Defined.
